(** * Community view and GEXF ingestion: a shallow embedding

    The development follows [src/utils/parseGexf.ts] (GEXF parser),
    [src/components/views/Community.tsx] (data filter, floating windows,
    layout selection, search highlight) and the domain filter component
    ([toggleFilter]).

    Conventions.
    - A JavaScript [number] is modelled as an exact rational extended with
      [NaN] and the two infinities; binary64 rounding and the sign of zero
      are not modelled.
    - A JavaScript string is a [string] of 8-bit characters; case folding
      acts on the ASCII letters.
    - The browser's XML parser is modelled by what it returns: the tree of
      a well-formed text, or an error document whose [parsererror] element
      holds the diagnostic and the offending line, as Gecko builds it.
    - React state: an updater passed to a setter is applied to the current
      state; a value read from the component scope is the one of the render
      that created the callback.  The [node-clicked] listener is replaced
      when the D3 effect runs again; the handlers bound in the JSX are
      those of the latest render. *)

From Stdlib Require Import List String Ascii Bool Arith ZArith QArith Qround Lia.
Import ListNotations.
Local Open Scope string_scope.

(** ** JavaScript built-ins used by the program *)

Module JS.

(** *** Numbers *)

Inductive number : Type :=
| NaN
| Infinity (negative : bool)
| Finite (q : Q).

Definition ofQ (q : Q) : number := Finite (Qred q).
Definition ofZ (z : Z) : number := Finite (inject_Z z).

Definition isNaN (x : number) : bool :=
  match x with NaN => true | _ => false end.

Definition neg (x : number) : number :=
  match x with
  | NaN => NaN
  | Infinity s => Infinity (negb s)
  | Finite q => ofQ (- q)
  end.

Definition add (x y : number) : number :=
  match x, y with
  | NaN, _ | _, NaN => NaN
  | Infinity a, Infinity b => if Bool.eqb a b then Infinity a else NaN
  | Infinity a, Finite _ => Infinity a
  | Finite _, Infinity b => Infinity b
  | Finite p, Finite q => ofQ (p + q)
  end.

Definition sub (x y : number) : number := add x (neg y).

(** [x < y] and [x <= y] of JavaScript: false as soon as one side is NaN. *)
Definition ltb (x y : number) : bool :=
  match x, y with
  | NaN, _ | _, NaN => false
  | Infinity a, Infinity b => a && negb b
  | Infinity a, Finite _ => a
  | Finite _, Infinity b => negb b
  | Finite p, Finite q => negb (Qle_bool q p)
  end.

Definition leb (x y : number) : bool :=
  match x, y with
  | NaN, _ | _, NaN => false
  | Infinity a, Infinity b => a || negb b
  | Infinity a, Finite _ => a
  | Finite _, Infinity b => negb b
  | Finite p, Finite q => Qle_bool p q
  end.

Definition Math_min (x y : number) : number :=
  match x, y with
  | NaN, _ | _, NaN => NaN
  | _, _ => if ltb y x then y else x
  end.

Definition Math_max (x y : number) : number :=
  match x, y with
  | NaN, _ | _, NaN => NaN
  | _, _ => if ltb x y then y else x
  end.

(** [Math.round]: the nearest integer, ties towards plus infinity. *)
Definition Math_round (x : number) : number :=
  match x with
  | Finite q => ofZ (Qfloor (q + (1 # 2)))
  | _ => x
  end.

(** Truthiness of a number ([0] and [NaN] are falsy). *)
Definition truthy_number (x : number) : bool :=
  match x with
  | NaN => false
  | Infinity _ => true
  | Finite q => negb (Qeq_bool q 0)
  end.

(** *** Strings *)

Definition truthy_string (s : string) : bool :=
  match s with EmptyString => false | _ => true end.

Fixpoint map_string (f : ascii -> ascii) (s : string) : string :=
  match s with
  | EmptyString => EmptyString
  | String c r => String (f c) (map_string f r)
  end.

Definition lower_ascii (c : ascii) : ascii :=
  let n := nat_of_ascii c in
  if (65 <=? n)%nat && (n <=? 90)%nat then ascii_of_nat (n + 32) else c.

Definition toLowerCase (s : string) : string := map_string lower_ascii s.

Definition startsWith (s p : string) : bool := String.prefix p s.

Definition endsWith (s suffix : string) : bool :=
  let n := String.length s in
  let m := String.length suffix in
  (m <=? n)%nat && String.eqb (substring (n - m) m s) suffix.

(** [s.includes(t)]: [t] occurs in [s] at some position. *)
Fixpoint includes (s t : string) : bool :=
  if String.prefix t s then true
  else match s with
       | EmptyString => false
       | String _ r => includes r t
       end.

Fixpoint repeat_string (c : ascii) (n : nat) : string :=
  match n with O => EmptyString | S k => String c (repeat_string c k) end.

(** [s.padStart(n, c)] for a one-character filler. *)
Definition padStart (n : nat) (c : ascii) (s : string) : string :=
  repeat_string c (n - String.length s) ++ s.

Fixpoint join (sep : string) (l : list string) : string :=
  match l with
  | [] => EmptyString
  | [s] => s
  | s :: r => s ++ sep ++ join sep r
  end.

(** *** Number to string in radix 16 *)

Definition hexDigit (d : N) : ascii :=
  if (d <? 10)%N then ascii_of_N (48 + d) else ascii_of_N (87 + d).

Fixpoint hexOfN (fuel : nat) (n : N) (acc : string) : string :=
  match fuel with
  | O => acc
  | S f =>
      let acc' := String (hexDigit (n mod 16)) acc in
      if (n / 16 =? 0)%N then acc' else hexOfN f (n / 16) acc'
  end.

Definition hexOfZ (z : Z) : string :=
  let n := Z.to_N (Z.abs z) in
  let digits := hexOfN (S (N.to_nat (N.size n))) n EmptyString in
  if (z <? 0)%Z then "-" ++ digits else digits.

(** [x.toString(16)].  The program only applies it to the result of
    [Math.round]; for a number with a fractional part the digits after the
    point are left out. *)
Definition toString16 (x : number) : string :=
  match x with
  | NaN => "NaN"
  | Infinity false => "Infinity"
  | Infinity true => "-Infinity"
  | Finite q => hexOfZ (Qnum q / Zpos (Qden q))
  end.

(** *** parseFloat and parseInt *)

Definition isWhiteSpace (c : ascii) : bool :=
  let n := nat_of_ascii c in
  (n =? 32)%nat || ((9 <=? n)%nat && (n <=? 13)%nat).

Fixpoint trimStart (s : string) : string :=
  match s with
  | String c r => if isWhiteSpace c then trimStart r else s
  | EmptyString => EmptyString
  end.

Definition digitValue (c : ascii) : option Z :=
  let n := nat_of_ascii c in
  if (48 <=? n)%nat && (n <=? 57)%nat then Some (Z.of_nat (n - 48)) else None.

(** Longest prefix of decimal digits: its value, its length, the rest. *)
Fixpoint spanDigits (s : string) (acc : Z) (len : nat) : Z * nat * string :=
  match s with
  | String c r =>
      match digitValue c with
      | Some d => spanDigits r (10 * acc + d) (S len)
      | None => (acc, len, s)
      end
  | EmptyString => (acc, len, s)
  end.

Definition readSign (s : string) : bool * string :=
  match s with
  | String "+" r => (false, r)
  | String "-" r => (true, r)
  | _ => (false, s)
  end.

(** Exponent part [e±ddd]; absent or without digits it counts as 0. *)
Definition readExponent (s : string) : Z :=
  match s with
  | String c r =>
      if Ascii.eqb c "e" || Ascii.eqb c "E" then
        let '(sg, r1) := readSign r in
        let '(v, len, _) := spanDigits r1 0 0 in
        match len with
        | O => 0
        | _ => if sg then - v else v
        end
      else 0
  | EmptyString => 0
  end%Z.

Definition parseFloat (s : string) : number :=
  let '(sg, body) := readSign (trimStart s) in
  if String.prefix "Infinity" body then Infinity sg
  else
    let '(ip, ilen, r1) := spanDigits body 0 0 in
    let '(mant, flen, r2) :=
      match r1 with
      | String "." r => spanDigits r ip 0
      | _ => (ip, O, r1)
      end in
    match ilen, flen with
    | O, O => NaN
    | _, _ =>
        let e := (readExponent r2 - Z.of_nat flen)%Z in
        let v := (inject_Z mant * Qpower (10 # 1) e)%Q in
        ofQ (if sg then - v else v)
    end.

(** [parseInt(s, 10)]. *)
Definition parseInt10 (s : string) : number :=
  let '(sg, body) := readSign (trimStart s) in
  let '(v, len, _) := spanDigits body 0 0 in
  match len with
  | O => NaN
  | _ => ofZ (if sg then - v else v)
  end.

End JS.

(** ** The DOM as the parser reads it *)

Module DOM.

Record Attr : Type := mkAttr {
  attrNamespace : option string;
  attrName : string;        (* qualified name, as written in the document *)
  attrLocalName : string;
  attrValue : string
}.

(** An element with its namespace, qualified and local names, attributes
    and content (text and child elements, in document order). *)
#[local] Set Warnings "-register-all".
Inductive Element : Type :=
| Elem (namespaceURI : option string) (tagName localName : string)
       (attributes : list Attr) (content : list (string + Element)).

Record Document : Type := mkDocument { documentElement : Element }.

Definition namespaceURI (e : Element) : option string :=
  match e with Elem ns _ _ _ _ => ns end.
Definition tagName (e : Element) : string :=
  match e with Elem _ t _ _ _ => t end.
Definition localName (e : Element) : string :=
  match e with Elem _ _ l _ _ => l end.
Definition attributes (e : Element) : list Attr :=
  match e with Elem _ _ _ a _ => a end.
Definition content (e : Element) : list (string + Element) :=
  match e with Elem _ _ _ _ c => c end.

Definition childElement (c : string + Element) : list Element :=
  match c with inl _ => [] | inr k => [k] end.

(** [e.children]: the child elements. *)
Definition children (e : Element) : list Element :=
  flat_map childElement (content e).

(** The element followed by all its descendants, in document order. *)
Fixpoint subtree (e : Element) : list Element :=
  match e with
  | Elem _ _ _ _ c =>
      e :: flat_map (fun ch => match ch with
                               | inl _ => []
                               | inr k => subtree k
                               end) c
  end.

Definition descendants (e : Element) : list Element :=
  flat_map subtree (children e).

Fixpoint textContent (e : Element) : string :=
  match e with
  | Elem _ _ _ _ c =>
      fold_right (fun ch acc => match ch with
                                | inl t => t ++ acc
                                | inr k => textContent k ++ acc
                                end) EmptyString c
  end.

Definition option_string_eqb (a b : option string) : bool :=
  match a, b with
  | Some x, Some y => String.eqb x y
  | None, None => true
  | _, _ => false
  end.

Definition matchesNS (ns local : string) (e : Element) : bool :=
  option_string_eqb (namespaceURI e) (Some ns) && String.eqb (localName e) local.

(** [e.getElementsByTagNameNS(ns, local)] on an element: descendants only. *)
Definition getElementsByTagNameNS (e : Element) (ns local : string) : list Element :=
  filter (matchesNS ns local) (descendants e).

(** [doc.getElementsByTagNameNS(ns, local)]: every element of the document. *)
Definition docGetElementsByTagNameNS (d : Document) (ns local : string) : list Element :=
  filter (matchesNS ns local) (subtree (documentElement d)).

(** [doc.querySelector(name)] for a type selector: the first element of
    the document with that local name, in any namespace. *)
Definition querySelector (d : Document) (name : string) : option Element :=
  find (fun e => String.eqb (localName e) name) (subtree (documentElement d)).

Definition getAttribute (e : Element) (name : string) : option string :=
  option_map attrValue
    (find (fun a => String.eqb (attrName a) name) (attributes e)).

Definition getAttributeNS (e : Element) (ns : option string) (local : string)
  : option string :=
  option_map attrValue
    (find (fun a => option_string_eqb (attrNamespace a) ns
                    && String.eqb (attrLocalName a) local) (attributes e)).

End DOM.

(** The [??] operator on a nullable value. *)
Definition orElse {A : Type} (a : option A) (b : A) : A :=
  match a with Some x => x | None => b end.
Definition orElseOpt {A : Type} (a b : option A) : option A :=
  match a with Some _ => a | None => b end.

(** ** types.ts *)

Inductive NodeType : Type := author | paper.

Definition NodeType_eqb (a b : NodeType) : bool :=
  match a, b with
  | author, author | paper, paper => true
  | _, _ => false
  end.

(** [x] and [y] are optional (d3's SimulationNodeDatum); [None] stands for
    a coordinate that is not a number (undefined, or null in JSON data). *)
Record GraphNode : Type := mkGraphNode {
  id : string;
  label : string;
  fullLabel : option string;
  group : string;
  val : JS.number;
  color : string;
  nodeType : NodeType;
  x : option JS.number;
  y : option JS.number;
  topCitedPaperCount : option JS.number
}.

(** [source: string | GraphNode]. *)
Inductive LinkEnd : Type :=
| EndId (s : string)
| EndNode (n : GraphNode).

Record GraphLink : Type := mkGraphLink {
  source : LinkEnd;
  target : LinkEnd;
  value : JS.number
}.

Record NetworkData : Type := mkNetworkData {
  nodes : list GraphNode;
  links : list GraphLink
}.

Record Domain : Type := mkDomain {
  domain_id : string;
  domain_name : string;
  domain_color : string;
  subAreas : list string
}.

Record Paper : Type := mkPaper {
  paper_id : string;
  paper_domainId : string;
  paper_subArea : string
}.

(** ** A JavaScript [Map] with string keys

    Iteration follows insertion order; [set] on a key that is present
    replaces the value and keeps the key's position. *)

Module JsMap.
Section WithValue.
Context {V : Type}.

Definition t : Type := list (string * V).

Definition empty : t := [].

Fixpoint set (k : string) (v : V) (m : t) : t :=
  match m with
  | [] => [(k, v)]
  | (k', v') :: r =>
      if String.eqb k' k then (k, v) :: r else (k', v') :: set k v r
  end.

Fixpoint get (k : string) (m : t) : option V :=
  match m with
  | [] => None
  | (k', v') :: r => if String.eqb k' k then Some v' else get k r
  end.

Definition has (k : string) (m : t) : bool :=
  match get k m with Some _ => true | None => false end.

Definition keys (m : t) : list string := map fst m.
Definition values (m : t) : list V := map snd m.
End WithValue.
Arguments t : clear implicits.
End JsMap.

(** ** src/utils/parseGexf.ts *)

Module Gexf.
Import DOM.

Definition GEXF_NS : string := "http://gexf.net/1.3".
Definition VIZ_NS : string := "http://gexf.net/1.3/viz".

Definition DEFAULT_COLOR : string := "#94a3b8".

Definition clampChannel (c : JS.number) : JS.number :=
  JS.Math_max (JS.ofZ 0) (JS.Math_min (JS.ofZ 255) (JS.Math_round c)).

Definition rgbToHex (r g b : JS.number) : string :=
  let rr := clampChannel r in
  let gg := clampChannel g in
  let bb := clampChannel b in
  "#" ++ JS.join "" (map (fun x => JS.padStart 2 "0" (JS.toString16 x)) [rr; gg; bb]).

(** Find viz child by local name. *)
Definition getVizChild (parent : Element) (name : string) : option Element :=
  match getElementsByTagNameNS parent VIZ_NS name with
  | byNs :: _ => Some byNs
  | [] =>
      find (fun el =>
              String.eqb (localName el) name
              || (let tag := tagName el in
                  String.eqb tag name
                  || String.eqb tag ("viz:" ++ name)
                  || JS.endsWith tag (":" ++ name)))
           (children parent)
  end.

(** [getAttribute(key) ?? getAttributeNS(null, key)]. *)
Definition attr (e : Element) (key : string) : option string :=
  orElseOpt (getAttribute e key) (getAttributeNS e None key).

Definition getRgbFromColorEl (colorEl : Element)
  : option (JS.number * JS.number * JS.number) :=
  let get key :=
    match attr colorEl key with
    | Some v => JS.parseFloat v
    | None => JS.NaN
    end in
  let r := get "r" in
  let g := get "g" in
  let b := get "b" in
  if negb (JS.isNaN r) && negb (JS.isNaN g) && negb (JS.isNaN b)
  then Some (r, g, b) else None.

Definition getAttValue (nodeEl : Element) (attrId : string) : option string :=
  match getElementsByTagNameNS nodeEl GEXF_NS "attvalues" with
  | [] => None
  | attvalues :: _ =>
      match find (fun av => option_string_eqb (getAttribute av "for") (Some attrId))
                 (getElementsByTagNameNS attvalues GEXF_NS "attvalue") with
      | Some av => getAttribute av "value"
      | None => None
      end
  end.

Record Options : Type := mkOptions { coauthorship : bool; citation : bool }.

(** Colour of a node from its viz:color element. *)
Definition resolveColor (colorEl : option Element) : string :=
  match colorEl with
  | None => DEFAULT_COLOR
  | Some el =>
      match attr el "hex" with
      | Some (String c r as hex) =>
          if JS.startsWith hex "#" then hex else "#" ++ hex
      | _ =>
          match getRgbFromColorEl el with
          | Some (r, g, b) => rgbToHex r g b
          | None => DEFAULT_COLOR
          end
      end
  end.

(** A coordinate read from viz:position. *)
Definition readCoord (pos : option Element) (key : string) : JS.number :=
  match pos with
  | Some p => JS.parseFloat (orElse (attr p key) "0")
  | None => JS.ofZ 0
  end.

Definition readSize (sizeEl : option Element) : JS.number :=
  match sizeEl with
  | Some s => JS.parseFloat (orElse (attr s "value") "5")
  | None => JS.ofZ 5
  end.

(** The body of the loop over node elements: the node built from [n]. *)
Definition nodeOfElement (options : Options) (n : Element) : GraphNode :=
  let id := orElse (getAttribute n "id") "" in
  let label := orElse (getAttribute n "label") id in
  let pos := getVizChild n "position" in
  let colorEl := getVizChild n "color" in
  let sizeEl := getVizChild n "size" in
  let x := readCoord pos "x" in
  let y := readCoord pos "y" in
  let color := resolveColor colorEl in
  let val := readSize sizeEl in
  let group :=
    match getAttValue n "cluster" with
    | Some clusterVal => "Cluster " ++ clusterVal
    | None => ""
    end in
  let topCitedPaperCount :=
    match getAttValue n "d1" with
    | Some paperCountStr =>
        let pc := JS.parseInt10 paperCountStr in
        if negb (JS.isNaN pc) then Some pc else None
    | None => None
    end in
  let nodeType :=
    if coauthorship options then author
    else if citation options then
      let authorType := getAttValue n "d3" in
      if option_string_eqb authorType (Some "source")
         || option_string_eqb authorType (Some "citing")
      then author else author
    else author in
  {| id := id;
     label := label;
     fullLabel := Some label;
     group := if JS.truthy_string group then group else "unknown";
     val := val;
     color := color;
     nodeType := nodeType;
     x := Some x;
     y := Some y;
     topCitedPaperCount := topCitedPaperCount |}.

(** One iteration of the node loop. *)
Definition addNode (options : Options) (nodeMap : JsMap.t GraphNode) (n : Element) :=
  let node := nodeOfElement options n in JsMap.set (id node) node nodeMap.

Definition buildNodeMap (options : Options) (nodeList : list Element)
  : JsMap.t GraphNode :=
  fold_left (addNode options) nodeList JsMap.empty.

(** [n] is a node element whose node has id [k]. *)
Definition hasId (options : Options) (k : string) (n : Element) : bool :=
  String.eqb (id (nodeOfElement options n)) k.

(** Every key of the table is the id of the node stored under it. *)
Definition keyed (m : JsMap.t GraphNode) : Prop :=
  forall k v, In (k, v) m -> id v = k.

(** The body of the loop over edge elements: the link pushed for [e], if any. *)
Definition linkOfElement (nodeMap : JsMap.t GraphNode) (e : Element)
  : option GraphLink :=
  let sourceId := getAttribute e "source" in
  let targetId := getAttribute e "target" in
  let weight := JS.parseFloat (orElse (getAttribute e "weight") "1") in
  match sourceId, targetId with
  | Some s, Some t =>
      if JS.truthy_string s && JS.truthy_string t
         && JsMap.has s nodeMap && JsMap.has t nodeMap
      then
        match JsMap.get s nodeMap, JsMap.get t nodeMap with
        | Some sn, Some tn =>
            Some {| source := EndNode sn; target := EndNode tn; value := weight |}
        | _, _ => None
        end
      else None
  | _, _ => None
  end.

Fixpoint buildLinks (nodeMap : JsMap.t GraphNode) (edgeList : list Element)
  : list GraphLink :=
  match edgeList with
  | [] => []
  | e :: rest =>
      match linkOfElement nodeMap e with
      | Some l => l :: buildLinks nodeMap rest
      | None => buildLinks nodeMap rest
      end
  end.

(** What a call returns: a value, or a thrown [Error] with its message. *)
Inductive Outcome (A : Type) : Type :=
| Return (a : A)
| Throw (message : string).
Arguments Return {A} a.
Arguments Throw {A} message.

Definition graphOf (graph : Element) (options : Options) : NetworkData :=
  let nodeList := getElementsByTagNameNS graph GEXF_NS "node" in
  let nodeMap := buildNodeMap options nodeList in
  let nodes := JsMap.values nodeMap in
  let edgeList := getElementsByTagNameNS graph GEXF_NS "edge" in
  {| nodes := nodes; links := buildLinks nodeMap edgeList |}.

(** [parseGexf] from the document that the XML parser returned. *)
Definition parseDocument (doc : Document) (options : Options) : Outcome NetworkData :=
  match querySelector doc "parsererror" with
  | Some parseError =>
      let text := textContent parseError in
      Throw ("GEXF parse error: "
             ++ (if JS.truthy_string text then text else "Invalid XML"))
  | None =>
      match docGetElementsByTagNameNS doc GEXF_NS "graph" with
      | [] => Throw "GEXF: missing graph"
      | graph :: _ => Return (graphOf graph options)
      end
  end.

Section WithXmlParser.
(** [new DOMParser().parseFromString(xmlText, 'text/xml')]. *)
Variable parseFromString : string -> Document.

Definition parseGexf (xmlText : string) (options : Options) : Outcome NetworkData :=
  parseDocument (parseFromString xmlText) options.
End WithXmlParser.

End Gexf.

(** ** The XML parser of the browser *)

Module DOMParser.
Import DOM.

(** What [parseFromString(text, 'text/xml')] makes of a text: the tree of a
    well-formed document, or, for a text that is not well-formed, an error
    document that carries the diagnostic of the syntax error and the
    offending line. *)
Inductive Parsed : Type :=
| WellFormed (doc : Document)
| NotWellFormed (diagnostic sourcetext : string).

Definition PARSERERROR_NS : string :=
  "http://www.mozilla.org/newlayout/xml/parsererror.xml".

(** <parsererror>diagnostic<sourcetext>offending line</sourcetext></parsererror> *)
Definition errorDocument (diagnostic sourcetext : string) : Document :=
  mkDocument
    (Elem (Some PARSERERROR_NS) "parsererror" "parsererror" []
          [inl diagnostic;
           inr (Elem (Some PARSERERROR_NS) "sourcetext" "sourcetext" []
                     [inl sourcetext])]).

Definition documentOf (p : Parsed) : Document :=
  match p with
  | WellFormed doc => doc
  | NotWellFormed diagnostic sourcetext => errorDocument diagnostic sourcetext
  end.

(** [parseFromString] of a parser that reads texts as [xml] says. *)
Definition parseFromString (xml : string -> Parsed) (xmlText : string) : Document :=
  documentOf (xml xmlText).

End DOMParser.

(** ** The domain filter component: [toggleFilter] *)

Module DomainFilter.

Inductive FilterType : Type := TDomain | TSubdomain.

(** [ActiveFilter = DomainFilter | SubdomainFilter]; the parent id of a
    subdomain filter is optional at run time ([domainId!] of an optional
    argument). *)
Inductive ActiveFilter : Type :=
| DomainF (value : string)
| SubdomainF (value : string) (domainId : option string).

Definition isDomainF (value : string) (f : ActiveFilter) : bool :=
  match f with
  | DomainF v => String.eqb v value
  | SubdomainF _ _ => false
  end.

Definition isSubdomainF (value : string) (domainId : option string)
           (f : ActiveFilter) : bool :=
  match f with
  | DomainF _ => false
  | SubdomainF v d => String.eqb v value && DOM.option_string_eqb d domainId
  end.

(** [arr.findIndex(p)], with [None] for -1. *)
Fixpoint findIndex {A : Type} (p : A -> bool) (l : list A) : option nat :=
  match l with
  | [] => None
  | a :: r => if p a then Some O else option_map S (findIndex p r)
  end.

(** [arr.splice(i, 1)]: the array without its element at index [i]. *)
Fixpoint splice1 {A : Type} (i : nat) (l : list A) : list A :=
  match l, i with
  | [], _ => []
  | _ :: r, O => r
  | a :: r, S j => a :: splice1 j r
  end.

Definition removeFound {A : Type} (p : A -> bool) (l : list A) : list A :=
  match findIndex p l with
  | Some i => splice1 i l
  | None => l
  end.

Section WithDomains.
Variable domainsList : list Domain.

Definition toggleFilter (activeFilters : list ActiveFilter)
           (type : FilterType) (value : string) (domainId : option string)
  : list ActiveFilter :=
  let newFilters := activeFilters in
  match type with
  | TDomain =>
      match findIndex (isDomainF value) newFilters with
      | Some index =>
          let newFilters := splice1 index newFilters in
          match find (fun d => String.eqb (domain_id d) value) domainsList with
          | Some domain =>
              fold_left (fun fs subArea =>
                           removeFound (isSubdomainF subArea (Some value)) fs)
                        (subAreas domain) newFilters
          | None => newFilters
          end
      | None => (newFilters ++ [DomainF value])%list
      end
  | TSubdomain =>
      match findIndex (isSubdomainF value domainId) newFilters with
      | Some index => splice1 index newFilters
      | None => (newFilters ++ [SubdomainF value domainId])%list
      end
  end.

Definition isDomainSelected (activeFilters : list ActiveFilter)
           (domainId : string) : bool :=
  existsb (isDomainF domainId) activeFilters.

Definition isSubdomainSelected (activeFilters : list ActiveFilter)
           (subArea domainId : string) : bool :=
  existsb (isSubdomainF subArea (Some domainId)) activeFilters.

(** The filter sets the component and its host can produce: check boxes
    call [toggleFilter] on a listed domain or on one of its sub-areas;
    a filter tag of the host removes the entry at its index; a mode switch
    clears the set. *)
Inductive reachable : list ActiveFilter -> Prop :=
| reach_init : reachable []
| reach_domain fs d :
    reachable fs -> In d domainsList ->
    reachable (toggleFilter fs TDomain (domain_id d) None)
| reach_subdomain fs d sa :
    reachable fs -> In d domainsList -> In sa (subAreas d) ->
    reachable (toggleFilter fs TSubdomain sa (Some (domain_id d)))
| reach_tag fs index :
    reachable fs -> reachable (splice1 index fs).
End WithDomains.

(** constants.ts *)
Definition DOMAINS : list Domain :=
  [ mkDomain "MAN" "Manufacturing & Design" "#2563eb"
      ["Additive Mfg"; "Smart Factories"; "Lean Principles"; "CAD/CAM"];
    mkDomain "HLT" "Healthcare Systems" "#dc2626"
      ["Patient Flow"; "Telehealth"; "Medical Decision Making"; "Public Health"];
    mkDomain "DAT" "Data Science & AI" "#7c3aed"
      ["Machine Learning"; "Predictive Analytics"; "LLMs in IE"; "Optimization"];
    mkDomain "SUP" "Supply Chain" "#d97706"
      ["Logistics"; "Resilience"; "Inventory Control"; "Blockchain"];
    mkDomain "SUS" "Sustainability" "#0d9488"
      ["Circular Economy"; "Green Energy"; "Carbon Footprint"; "Waste Mgmt"];
    mkDomain "HFE" "Human Factors" "#e11d48"
      ["Cognitive Ergo"; "Safety"; "Human-Robot Interaction"; "UX Design"] ].

End DomainFilter.

(** ** src/components/views/Community.tsx *)

Module Community.
Import DomainFilter.

Inductive Mode : Type := SOCIAL | CITATION.

Definition isCitation (m : Mode) : bool :=
  match m with CITATION => true | SOCIAL => false end.

(** *** Data selection: the domain and subdomain filter *)

Definition linkEndId (e : LinkEnd) : string :=
  match e with EndId s => s | EndNode n => id n end.

Definition matchesFilter (papersList : list Paper) (node : GraphNode)
           (filter : ActiveFilter) : bool :=
  match filter with
  | DomainF v => String.eqb (group node) v
  | SubdomainF v d =>
      match find (fun p => String.eqb (paper_id p) (id node)) papersList with
      | None => false
      | Some p =>
          DOM.option_string_eqb (Some (paper_domainId p)) d
          && String.eqb (paper_subArea p) v
      end
  end.

Definition keepNode (activeFilters : list ActiveFilter) (papersList : list Paper)
           (node : GraphNode) : bool :=
  if negb (NodeType_eqb (nodeType node) paper) then true
  else existsb (matchesFilter papersList node) activeFilters.

Definition setHas (ids : list string) (s : string) : bool :=
  existsb (String.eqb s) ids.

(** The second half of the [data] memo; [baseData] is the deep copy of the
    network selected by the mode. *)
Definition filteredData (mode : Mode) (activeFilters : list ActiveFilter)
           (papersList : list Paper) (baseData : NetworkData) : NetworkData :=
  if (0 <? List.length activeFilters)%nat && isCitation mode then
    let nodes' := filter (keepNode activeFilters papersList) (nodes baseData) in
    let nodeIds := map id nodes' in
    let links' :=
      filter (fun link =>
                let sourceId := linkEndId (source link) in
                let targetId := linkEndId (target link) in
                setHas nodeIds sourceId && setHas nodeIds targetId)
             (links baseData) in
    {| nodes := nodes'; links := links' |}
  else baseData.

(** *** Window management *)

Record WindowState : Type := mkWindow {
  win_id : string;
  win_node : GraphNode;
  win_x : JS.number;
  win_y : JS.number;
  zIndex : Z
}.

(** The four pieces of component state, and [closureZ]: the value of
    [nextZIndex] that the registered [node-clicked] listener closed over.
    [addWindow] is a [useCallback] with dependencies [[nextZIndex]], and the
    listener that calls it is registered by the D3 effect, so the listener
    sees the counter of the render whose effect registered it, not the
    counter of the state its updaters are applied to. *)
Record WM : Type := mkWM {
  windows : list WindowState;
  nextZIndex : Z;
  draggingId : option string;
  dragOffset : JS.number * JS.number;
  closureZ : Z
}.

Definition initialWM : WM :=
  {| windows := []; nextZIndex := 10; draggingId := None;
     dragOffset := (JS.ofZ 0, JS.ofZ 0); closureZ := 10 |}.

Definition setWindows (f : list WindowState -> list WindowState) (st : WM) : WM :=
  {| windows := f (windows st); nextZIndex := nextZIndex st;
     draggingId := draggingId st; dragOffset := dragOffset st;
     closureZ := closureZ st |}.

Definition setNextZIndex (f : Z -> Z) (st : WM) : WM :=
  {| windows := windows st; nextZIndex := f (nextZIndex st);
     draggingId := draggingId st; dragOffset := dragOffset st;
     closureZ := closureZ st |}.

Definition withZ (z : Z) (w : WindowState) : WindowState :=
  {| win_id := win_id w; win_node := win_node w; win_x := win_x w;
     win_y := win_y w; zIndex := z |}.

Definition withPos (px py : JS.number) (w : WindowState) : WindowState :=
  {| win_id := win_id w; win_node := win_node w; win_x := px;
     win_y := py; zIndex := zIndex w |}.

Definition hasWindow (ws : list WindowState) (i : string) : bool :=
  existsb (fun w => String.eqb (win_id w) i) ws.

(** [containerRef.current?.clientWidth || 800]. *)
Definition containerWidth (clientWidth : option Z) : Z :=
  match clientWidth with
  | Some w => if (w =? 0)%Z then 800 else w
  | None => 800
  end.

(** [addWindow] as the [node-clicked] listener runs it.  The two updaters
    are applied to the current state ([prev], and [z => z + 1] on the
    counter), but the [nextZIndex] written into the window is the one the
    callback closed over, [closureZ]. *)
Definition addWindow (clientWidth : option Z) (node : GraphNode)
           (initialX initialY : JS.number) (st : WM) : WM :=
  let z := closureZ st in
  let st1 :=
    setWindows (fun prev =>
      if hasWindow prev (id node) then
        map (fun w => if String.eqb (win_id w) (id node)
                      then withZ (z + 1) w else w) prev
      else
        let offsetCount := Z.of_nat (List.length prev) in
        (prev ++ [ {| win_id := id node;
                     win_node := node;
                     win_x := JS.Math_min
                                (JS.add (JS.add initialX (JS.ofZ 20))
                                        (JS.ofZ (offsetCount * 10)))
                                (JS.ofZ (containerWidth clientWidth - 300));
                     win_y := JS.Math_max
                                (JS.add (JS.sub initialY (JS.ofZ 50))
                                        (JS.ofZ (offsetCount * 10)))
                                (JS.ofZ 20);
                     zIndex := z + 1 |} ])%list) st in
  setNextZIndex (fun z => z + 1)%Z st1.

Definition closeWindow (i : string) (st : WM) : WM :=
  setWindows (filter (fun w => negb (String.eqb (win_id w) i))) st.

(** [bringToFront] and the drag handlers are bound in the JSX of each
    render, so they read the counter of the state they act on. *)
Definition bringToFront (i : string) (st : WM) : WM :=
  let z := nextZIndex st in
  setNextZIndex (fun z => z + 1)%Z
    (setWindows (map (fun w => if String.eqb (win_id w) i
                               then withZ (z + 1) w else w)) st).

Definition handleMouseDown (clientX clientY : JS.number) (i : string)
           (currentX currentY : JS.number) (st : WM) : WM :=
  let st1 :=
    {| windows := windows st; nextZIndex := nextZIndex st;
       draggingId := Some i;
       dragOffset := (JS.sub clientX currentX, JS.sub clientY currentY);
       closureZ := closureZ st |} in
  bringToFront i st1.

Definition handleMouseMove (clientX clientY : JS.number) (st : WM) : WM :=
  match draggingId st with
  | Some d =>
      if JS.truthy_string d then
        setWindows (map (fun w =>
          if String.eqb (win_id w) d
          then withPos (JS.sub clientX (fst (dragOffset st)))
                       (JS.sub clientY (snd (dragOffset st))) w
          else w)) st
      else st
  | None => st
  end.

Definition handleMouseUp (st : WM) : WM :=
  {| windows := windows st; nextZIndex := nextZIndex st;
     draggingId := None; dragOffset := dragOffset st;
     closureZ := closureZ st |}.

(** Switching the graph mode or the citation scope: [setWindows([])]. *)
Definition clearWindows (st : WM) : WM := setWindows (fun _ => []) st.

(** The D3 effect runs again after a render in which [addWindow] changed:
    it registers a listener that closes over the current counter. *)
Definition registerListener (st : WM) : WM :=
  {| windows := windows st; nextZIndex := nextZIndex st;
     draggingId := draggingId st; dragOffset := dragOffset st;
     closureZ := nextZIndex st |}.

Inductive Event : Type :=
| NodeClicked (clientWidth : option Z) (node : GraphNode) (sx sy : JS.number)
| Close (i : string)
| MouseDown (clientX clientY : JS.number) (i : string) (currentX currentY : JS.number)
| MouseMove (clientX clientY : JS.number)
| MouseUp
| SwitchMode
| Rendered.

Definition step (st : WM) (ev : Event) : WM :=
  match ev with
  | NodeClicked cw node sx sy => addWindow cw node sx sy st
  | Close i => closeWindow i st
  | MouseDown cx cy i px py => handleMouseDown cx cy i px py st
  | MouseMove cx cy => handleMouseMove cx cy st
  | MouseUp => handleMouseUp st
  | SwitchMode => clearWindows st
  | Rendered => registerListener st
  end.

Definition run (evs : list Event) : WM := fold_left step evs initialWM.

Definition reachable (st : WM) : Prop := exists evs, st = run evs.

(** *** Layout selection (D3 initialisation effect) *)

Definition isNumber (c : option JS.number) : bool :=
  match c with Some _ => true | None => false end.

Definition hasGexfLayout (data : NetworkData) : bool :=
  (0 <? List.length (nodes data))%nat
  && forallb (fun d => isNumber (x d) && isNumber (y d)) (nodes data).

(** The configuration handed to [d3.forceSimulation]. *)
Record Simulation : Type := mkSimulation {
  sim_nodes : list GraphNode;
  sim_links : list GraphLink;
  linkDistance : Z;
  chargeStrength : Z;
  center : JS.number * JS.number;
  collideRadius : GraphNode -> JS.number
}.

Definition startSimulation (width : Z) (mode : Mode) (data : NetworkData)
  : option Simulation :=
  if negb (hasGexfLayout data) then
    Some {| sim_nodes := nodes data;
            sim_links := links data;
            linkDistance := match mode with SOCIAL => 40 | CITATION => 80 end;
            chargeStrength := match mode with SOCIAL => -80 | CITATION => -120 end;
            center := (JS.ofQ (inject_Z width / 2), JS.ofQ (600 / 2));
            collideRadius := fun d =>
              JS.add (if JS.truthy_number (val d) then val d else JS.ofZ 5)
                     (JS.ofZ 4) |}
  else None.

(** *** Highlights *)

Record HighlightState : Type := mkHighlight {
  searchTerm : string;
  hoverNode : option GraphNode;
  hoverLink : option GraphLink;
  openWindows : list WindowState
}.

(** [link.source.id]: defined only when the end is a node object. *)
Definition endNodeId (e : LinkEnd) : option string :=
  match e with EndNode n => Some (id n) | EndId _ => None end.

Definition isHighlight (hs : HighlightState) (d : GraphNode) : bool :=
  let openNodeIds := map win_id (openWindows hs) in
  let term := JS.toLowerCase (searchTerm hs) in
  if JS.truthy_string term then
    let label := JS.toLowerCase (label d) in
    let fullLabel := JS.toLowerCase (orElse (fullLabel d) "") in
    JS.includes label term || JS.includes fullLabel term
  else if match hoverLink hs with
          | Some l =>
              DOM.option_string_eqb (Some (id d)) (endNodeId (source l))
              || DOM.option_string_eqb (Some (id d)) (endNodeId (target l))
          | None => false
          end then true
  else if match hoverNode hs with
          | Some h => String.eqb (id d) (id h)
          | None => false
          end then true
  else if setHas openNodeIds (id d) then true
  else false.

Definition FULL_OPACITY : JS.number := JS.ofZ 1.
Definition SEARCH_DIM : JS.number := JS.Finite (1 # 10).
Definition HOVER_DIM : JS.number := JS.Finite (3 # 10).

Definition nodeOpacity (hs : HighlightState) (d : GraphNode) : JS.number :=
  let term := JS.toLowerCase (searchTerm hs) in
  if JS.truthy_string term then
    if isHighlight hs d then FULL_OPACITY else SEARCH_DIM
  else if match hoverNode hs, hoverLink hs with
          | None, None => false
          | _, _ => true
          end then
    if isHighlight hs d then FULL_OPACITY else HOVER_DIM
  else FULL_OPACITY.

Definition nodeStroke (hs : HighlightState) (d : GraphNode) : string :=
  if isHighlight hs d then "#000" else "#fff".

End Community.

(** ** Edge resolution, as a statement about ids *)

Module Resolution.
Import DOM Gexf.

(** The ends and the weight of a link. *)
Definition linkKey (l : GraphLink) : string * string * JS.number :=
  (Community.linkEndId (source l), Community.linkEndId (target l), value l).

(** The ends and the weight an edge element asks for. *)
Definition edgeKey (e : Element) : string * string * JS.number :=
  (orElse (getAttribute e "source") "", orElse (getAttribute e "target") "",
   JS.parseFloat (orElse (getAttribute e "weight") "1")).

(** Both ends of the edge element name a node among [ids]. *)
Definition resolvable (ids : list string) (e : Element) : bool :=
  match getAttribute e "source", getAttribute e "target" with
  | Some s, Some t =>
      JS.truthy_string s && JS.truthy_string t
      && Community.setHas ids s && Community.setHas ids t
  | _, _ => false
  end.

Definition bothEndsPresent (ids : list string) (l : GraphLink) : bool :=
  Community.setHas ids (Community.linkEndId (source l))
  && Community.setHas ids (Community.linkEndId (target l)).

End Resolution.

(** ** Sample documents and data *)

Module Samples.
Import DOM Gexf.

Definition plainAttr (name value : string) : Attr := mkAttr None name name value.

Definition gexfElem (name : string) (attrs : list Attr) (kids : list Element)
  : Element :=
  Elem (Some GEXF_NS) name name attrs (map inr kids).

Definition vizElem (name : string) (attrs : list Attr) : Element :=
  Elem (Some VIZ_NS) ("viz:" ++ name) name attrs [].

Definition nodeElem (i : string) (kids : list Element) : Element :=
  gexfElem "node" [plainAttr "id" i; plainAttr "label" i] kids.

Definition edgeElem (s t w : string) : Element :=
  gexfElem "edge" [plainAttr "source" s; plainAttr "target" t; plainAttr "weight" w] [].

Definition gexfDoc (nodeEls edgeEls : list Element) : Document :=
  mkDocument
    (gexfElem "gexf" []
       [gexfElem "graph" []
          [gexfElem "nodes" [] nodeEls; gexfElem "edges" [] edgeEls]]).

(** Nodes A, B, C; edges A->B (weight 2) and A->Z (Z undefined). *)
Definition danglingDoc : Document :=
  gexfDoc [nodeElem "A" []; nodeElem "B" []; nodeElem "C" []]
          [edgeElem "A" "B" "2"; edgeElem "A" "Z" "1"].

(** The node of an element that carries only an id and a label. *)
Definition plainNode (i l : string) : GraphNode :=
  {| id := i; label := l; fullLabel := Some l; group := "unknown";
     val := JS.ofZ 5; color := DEFAULT_COLOR; nodeType := author;
     x := Some (JS.ofZ 0); y := Some (JS.ofZ 0); topCitedPaperCount := None |}.

Definition anyOptions : Options := mkOptions false false.

Definition labelledNode (i l : string) : Element :=
  gexfElem "node" [plainAttr "id" i; plainAttr "label" l] [].

(** A node element without an id attribute. *)
Definition anonNode (l : string) : Element :=
  gexfElem "node" [plainAttr "label" l] [].

(** Two definitions of A, and two node elements without id. *)
Definition duplicateDoc : Document :=
  gexfDoc [labelledNode "A" "first"; labelledNode "B" "B";
           labelledNode "A" "second"; anonNode "x"; anonNode "y"]
          [edgeElem "A" "B" "1"].

Definition duplicateResult : NetworkData :=
  {| nodes := [plainNode "A" "second"; plainNode "B" "B"; plainNode "" "y"];
     links := [ {| source := EndNode (plainNode "A" "second");
                   target := EndNode (plainNode "B" "B");
                   value := JS.ofZ 1 |} ] |}.

(** A paper network as the JSON files and the mock generators give it:
    links carry ids. *)
Definition paperNode (i g : string) : GraphNode :=
  {| id := i; label := i; fullLabel := Some ("Title of " ++ i); group := g;
     val := JS.ofZ 3; color := "#2563eb"; nodeType := paper;
     x := None; y := None; topCitedPaperCount := None |}.

Definition paperNet : NetworkData :=
  {| nodes := [paperNode "p-1" "MAN"; paperNode "p-2" "HLT"; paperNode "p-3" "MAN"];
     links := [ mkGraphLink (EndId "p-1") (EndId "p-2") (JS.ofZ 1);
                mkGraphLink (EndId "p-1") (EndId "p-3") (JS.ofZ 1) ] |}.

End Samples.

(** ** Sample texts and what the XML parser makes of them *)

Module ParserSamples.
Import DOM Gexf Samples.

(** A well-formed GEXF document in which the node A has a child element
    named parsererror. *)
Definition hostileText : string :=
  "<gexf xmlns='http://gexf.net/1.3'><graph><nodes><node id='A' label='A'><parsererror/></node></nodes><edges/></graph></gexf>".

Definition hostileDoc : Document :=
  gexfDoc [nodeElem "A" [gexfElem "parsererror" [] []]] [].

(** A well-formed GEXF 1.2 document: its graph element is in the namespace
    of that version. *)
Definition draftText : string :=
  "<gexf xmlns='http://www.gexf.net/1.2draft'><graph><nodes><node id='A' label='A'/></nodes></graph></gexf>".

Definition draftElem (name : string) (attrs : list Attr) (kids : list Element)
  : Element :=
  Elem (Some "http://www.gexf.net/1.2draft") name name attrs (map inr kids).

Definition draftDoc : Document :=
  mkDocument
    (draftElem "gexf" []
       [draftElem "graph" []
          [draftElem "nodes" []
             [draftElem "node" [plainAttr "id" "A"; plainAttr "label" "A"] []]]]).

Definition truncatedText : string := "<gexf xmlns='http://gexf.net/1.3'><graph>".

Definition pageText : string := "<html><body/></html>".

Definition pageDoc : Document :=
  mkDocument (Elem None "html" "html" [] [inr (Elem None "body" "body" [] [])]).

Definition danglingText : string :=
  "<gexf xmlns='http://gexf.net/1.3'><graph><nodes><node id='A' label='A'/><node id='B' label='B'/><node id='C' label='C'/></nodes><edges><edge source='A' target='B' weight='2'/><edge source='A' target='Z' weight='1'/></edges></graph></gexf>".

(** The parser on the sample texts. *)
Definition sampleXml (text : string) : DOMParser.Parsed :=
  if String.eqb text truncatedText then
    DOMParser.NotWellFormed "XML Parsing Error: no element found" truncatedText
  else if String.eqb text pageText then DOMParser.WellFormed pageDoc
  else if String.eqb text hostileText then DOMParser.WellFormed hostileDoc
  else if String.eqb text draftText then DOMParser.WellFormed draftDoc
  else DOMParser.WellFormed danglingDoc.

End ParserSamples.

(** ** Colours as hex strings *)

Module ColorSpec.







End ColorSpec.

(** ** Sample node elements for the per-node defaults *)

Module NodeSamples.
Import DOM Gexf Samples.

(** <node id="A"/>: nothing but the id. *)
Definition bareNode : Element := gexfElem "node" [plainAttr "id" "A"] [].

(** <node id="A" label="A"><viz:position x="abc" y="7"/></node> *)
Definition malformedPositionNode : Element :=
  nodeElem "A" [vizElem "position" [plainAttr "x" "abc"; plainAttr "y" "7"]].

(** <node id="A" label="A"><viz:position y="7"/></node> *)
Definition partialPositionNode : Element :=
  nodeElem "A" [vizElem "position" [plainAttr "y" "7"]].

(** A node element without hints that wraps a node element with hints. *)
Definition wrappingNode : Element :=
  nodeElem "outer"
    [gexfElem "nodes" []
       [nodeElem "inner" [vizElem "position" [plainAttr "x" "1"; plainAttr "y" "2"];
                          vizElem "color" [plainAttr "hex" "ff0000"];
                          vizElem "size" [plainAttr "value" "9"]]]].

End NodeSamples.

(** ** Sample datasets for the layout selection *)

Module LayoutSamples.

Definition emptyData : NetworkData := {| nodes := []; links := [] |}.

(** Every node carries numeric x and y. *)
Definition hasCoordinates (data : NetworkData) : Prop :=
  forall d, In d (nodes data) ->
            Community.isNumber (x d) = true /\ Community.isNumber (y d) = true.

(** Some node lacks a numeric x or a numeric y. *)
Definition lacksCoordinate (data : NetworkData) : Prop :=
  exists d, In d (nodes data)
            /\ (Community.isNumber (x d) = false \/ Community.isNumber (y d) = false).

End LayoutSamples.

(** ** Search matching, as a statement about substrings *)

Module SearchSpec.

(** [t] occurs in [s] as a substring. *)
Definition occursIn (t s : string) : Prop :=
  exists pre post, s = pre ++ t ++ post.

(** Case-insensitive occurrence of the search term in a label. *)
Definition matchesLabel (term lbl : string) : Prop :=
  occursIn (JS.toLowerCase term) (JS.toLowerCase lbl).

Definition withHover (hs : Community.HighlightState)
           (hn : option GraphNode) (hl : option GraphLink)
           (ws : list Community.WindowState) : Community.HighlightState :=
  {| Community.searchTerm := Community.searchTerm hs;
     Community.hoverNode := hn;
     Community.hoverLink := hl;
     Community.openWindows := ws |}.

(** A paper whose short label is its id and whose full label is its title. *)
Definition titledPaper : GraphNode :=
  {| id := "p-7"; label := "p-7"; fullLabel := Some "Optimizing Supply Networks";
     group := "SUP"; val := JS.ofZ 3; color := "#d97706"; nodeType := paper;
     x := None; y := None; topCitedPaperCount := None |}.

Definition otherPaper : GraphNode :=
  {| id := "p-8"; label := "p-8"; fullLabel := Some "Lean Principles Revisited";
     group := "MAN"; val := JS.ofZ 3; color := "#2563eb"; nodeType := paper;
     x := None; y := None; topCitedPaperCount := None |}.

(** The user typed "NETWORK" while hovering the other paper. *)
Definition searching : Community.HighlightState :=
  {| Community.searchTerm := "NETWORK";
     Community.hoverNode := Some otherPaper;
     Community.hoverLink := None;
     Community.openWindows := [] |}.

End SearchSpec.

(** ** Window manager: invariant, placement and samples *)

Module WindowSpec.
Import Community.

(** No window is above the z-counter. *)
Definition belowCounter (st : WM) : Prop :=
  forall w, In w (windows st) -> (zIndex w <= nextZIndex st)%Z.

Definition oneWindowPerId (st : WM) : Prop := NoDup (map win_id (windows st)).

(** The listener's counter is never ahead of the state's. *)
Definition closureBehind (st : WM) : Prop := (closureZ st <= nextZIndex st)%Z.

Definition invariant (st : WM) : Prop :=
  oneWindowPerId st /\ belowCounter st /\ closureBehind st.

(** The anchor moved by the fixed offset and the stagger of [n] windows. *)
Definition staggeredX (anchorX : JS.number) (n : nat) : JS.number :=
  JS.add (JS.add anchorX (JS.ofZ 20)) (JS.ofZ (Z.of_nat n * 10)).

Definition staggeredY (anchorY : JS.number) (n : nat) : JS.number :=
  JS.add (JS.sub anchorY (JS.ofZ 50)) (JS.ofZ (Z.of_nat n * 10)).

(** The top-left corner of the window lies inside a container of the given
    width and height. *)
Definition cornerInside (width height : Z) (w : WindowState) : bool :=
  JS.leb (JS.ofZ 0) (win_x w) && JS.leb (win_x w) (JS.ofZ width)
  && JS.leb (JS.ofZ 0) (win_y w) && JS.leb (win_y w) (JS.ofZ height).

Definition authorNode (i : string) : GraphNode := Samples.plainNode i i.

Definition click (clientWidth : Z) (i : string) (sx sy : Z) : Event :=
  NodeClicked (Some clientWidth) (authorNode i) (JS.ofZ sx) (JS.ofZ sy).

(** Windows for A and B are open; the view was rendered after each click. *)
Definition twoOpenEvents : list Event :=
  [click 1000 "A" 100 100; Rendered; click 1000 "B" 200 200; Rendered].

Definition twoOpen : WM := run twoOpenEvents.

(** Seven windows are open, each opened after a render. *)
Definition sevenOpen : WM :=
  run (flat_map (fun i => [click 1000 i 300 300; Rendered])
                ["n1"; "n2"; "n3"; "n4"; "n5"; "n6"; "n7"]).

(** A and B are clicked before the view is rendered again, then A once
    more: the three clicks are handled by the listener registered at mount. *)
Definition hurriedEvents : list Event :=
  [click 1000 "A" 100 100; click 1000 "B" 200 200; click 1000 "A" 100 100].

Definition levels (st : WM) : list (string * Z) :=
  map (fun w => (win_id w, zIndex w)) (windows st).

Definition lastWindow (st : WM) : option WindowState :=
  List.last (map Some (windows st)) None.

End WindowSpec.

(** ** Filter cascade, as a statement about the filter set *)

Module FilterSpec.
Import DomainFilter.

(** [f] is a subdomain filter whose parent is the domain [value]. *)
Definition isChildOf (value : string) (f : ActiveFilter) : bool :=
  match f with
  | DomainF _ => false
  | SubdomainF _ d => DOM.option_string_eqb d (Some value)
  end.

(** The filter set without the domain [value] and without its subdomains;
    every other entry stays, in its place. *)
Definition withoutDomain (value : string) (fs : list ActiveFilter)
  : list ActiveFilter :=
  filter (fun f => negb (isDomainF value f || isChildOf value f)) fs.

(** No entry twice, and every subdomain filter names a sub-area of a listed
    domain. *)
Definition wellFormed (domainsList : list Domain) (fs : list ActiveFilter) : Prop :=
  NoDup fs
  /\ forall v d, In (SubdomainF v d) fs ->
       exists dom, In dom domainsList /\ d = Some (domain_id dom)
                   /\ In v (subAreas dom).

(** Manufacturing with two of its sub-areas, and Healthcare with one. *)
Definition fiveFilters : list ActiveFilter :=
  [ DomainF "MAN"; SubdomainF "Additive Mfg" (Some "MAN"); DomainF "HLT";
    SubdomainF "CAD/CAM" (Some "MAN"); SubdomainF "Telehealth" (Some "HLT") ].

End FilterSpec.

(** ** More of the window manager: focus events and drag state *)

Module WindowOps.
Import Community.

(** The window a focus-changing event addresses. *)
Definition focusOf (ev : Event) : option string :=
  match ev with
  | NodeClicked _ node _ _ => Some (id node)
  | MouseDown _ _ i _ _ => Some i
  | _ => None
  end.

Definition isFocusEvent (ev : Event) : bool :=
  match focusOf ev with Some _ => true | None => false end.


(** The listener that would handle a node click in [st] closed over the
    counter of [st]: the D3 effect ran after the last focus change. *)
Definition listenerCurrent (st : WM) : bool :=
  (closureZ st =? nextZIndex st)%Z.


Definition distinctZ (st : WM) : Prop := NoDup (map zIndex (windows st)).

(** Give the window of entity [i] the level [z]. *)
Definition raise (i : string) (z : Z) (w : WindowState) : WindowState :=
  if String.eqb (win_id w) i then withZ z w else w.


Definition positions (st : WM) : list (string * JS.number * JS.number) :=
  map (fun w => (win_id w, win_x w, win_y w)) (windows st).

(** Two numbers denote the same value. *)
Definition sameNumber (a b : JS.number) : Prop :=
  match a, b with
  | JS.NaN, JS.NaN => True
  | JS.Infinity s, JS.Infinity t => s = t
  | JS.Finite p, JS.Finite q => (p == q)%Q
  | _, _ => False
  end.

End WindowOps.

(** ** The filter tags of the Community header *)

Module FilterTags.
Import DomainFilter.

(** [arr.filter((_, i) => p(i))], counting from [i]. *)
Fixpoint filterIndexFrom {A : Type} (i : nat) (p : nat -> bool) (l : list A)
  : list A :=
  match l with
  | [] => []
  | a :: r =>
      if p i then a :: filterIndexFrom (S i) p r else filterIndexFrom (S i) p r
  end.

(** The tag button: [activeFilters.filter((_, i) => i !== index)]. *)
Definition removeTag (index : nat) (activeFilters : list ActiveFilter)
  : list ActiveFilter :=
  filterIndexFrom 0 (fun i => negb (Nat.eqb i index)) activeFilters.

End FilterTags.

(** ** Arithmetic used by the renderer *)

Module JSArith.




End JSArith.

(** ** Node radius (D3 initialisation effect) *)

Module Rendering.
Import Community.








End Rendering.

(** ** Loading one network (DataContext, loadFromPublic) *)

Module Loader.

Record Loaded : Type := mkLoaded {
  network : NetworkData;
  fromGexf : bool        (* the network's entry of [networkSource] *)
}.

(** What [await fetch(url)] gives: the promise rejects, or there is a
    response, not ok or ok; the body of an ok response is [None] when
    reading it ([text()], [json()]) rejects. *)
Inductive Response (A : Type) : Type :=
| Rejected
| NotOk
| Ok (body : option A).
Arguments Rejected {A}.
Arguments NotOk {A}.
Arguments Ok {A} body.

(** How the step for one network ends: it completes, with the state and
    whether this step loaded anything, or an exception leaves it, which the
    [catch] of [loadFromPublic] receives, so that the steps after it are
    not run. *)
Inductive Step : Type :=
| Completed (st : Loaded) (loaded : bool)
| Failed (st : Loaded).

Section WithXmlParser.
Variable parseFromString : string -> DOM.Document.

(** The [try] block around reading and parsing the GEXF body: the new
    state, and whether the network was loaded from GEXF. *)
Definition tryGexf (options : Gexf.Options) (body : option string) (st : Loaded)
  : Loaded * bool :=
  match body with
  | Some xml =>
      match Gexf.parseGexf parseFromString xml options with
      | Gexf.Return nd => ({| network := nd; fromGexf := true |}, true)
      | Gexf.Throw _ => (st, false)      (* catch: fall back to JSON *)
      end
  | None => (st, false)                  (* catch: fall back to JSON *)
  end.

(** One network of [loadFromPublic]: try the GEXF file first, then the JSON
    file.  Only reading and parsing the GEXF body is inside a [try]. *)
Definition loadNetwork (options : Gexf.Options) (gexfRes : Response string)
           (jsonRes : Response NetworkData) (st : Loaded) : Step :=
  match gexfRes with
  | Rejected => Failed st
  | _ =>
      let '(st1, loaded) :=
        match gexfRes with
        | Ok body => tryGexf options body st
        | _ => (st, false)
        end in
      if negb loaded then
        match jsonRes with
        | Rejected => Failed st1
        | NotOk => Completed st1 false
        | Ok None => Failed st1
        | Ok (Some nd) => Completed {| network := nd; fromGexf := false |} true
        end
      else Completed st1 true
  end.
End WithXmlParser.

(** The state a step leaves behind. *)
Definition stateOf (s : Step) : Loaded :=
  match s with Completed st _ => st | Failed st => st end.

End Loader.

(** ** Node order of the parser, as a statement about ids *)

Module OrderSpec.

(** The list without the later occurrences of its elements. *)
Fixpoint firstOccurrences (l : list string) : list string :=
  match l with
  | [] => []
  | k :: r => k :: filter (fun k' => negb (String.eqb k' k)) (firstOccurrences r)
  end.

Definition notIn (ks : list string) (k : string) : bool :=
  negb (existsb (String.eqb k) ks).

End OrderSpec.

(** ** parseClassifiedCsv: one CSV line *)

Module Csv.

Definition quote : ascii := ascii_of_nat 34.
Definition comma : ascii := ascii_of_nat 44.

Fixpoint rev_string (s acc : string) : string :=
  match s with
  | EmptyString => acc
  | String c r => rev_string r (String c acc)
  end.

(** [s.trim()]. *)
Definition trim (s : string) : string :=
  rev_string (JS.trimStart (rev_string (JS.trimStart s) EmptyString)) EmptyString.

(** The inner loop: [s] is the line from the character after the opening
    quote; the result is the field and the line from the character after the
    closing quote. *)
Fixpoint readQuoted (s field : string) : string * string :=
  match s with
  | EmptyString => (field, EmptyString)
  | String c r =>
      if Ascii.eqb c quote then
        match r with
        | String c' r' =>
            if Ascii.eqb c' quote then readQuoted r' (field ++ String quote EmptyString)
            else (field, r)
        | EmptyString => (field, r)
        end
      else readQuoted r (field ++ String c EmptyString)
  end.

(** [line.indexOf(',', i)] on the line from [i]: the text before the first
    comma and the text after it. *)
Fixpoint breakComma (s : string) : option (string * string) :=
  match s with
  | EmptyString => None
  | String c r =>
      if Ascii.eqb c comma then Some (EmptyString, r)
      else match breakComma r with
           | Some (before, after) => Some (String c before, after)
           | None => None
           end
  end.

(** The outer loop, on the line from index [i]. *)
Fixpoint parseFrom (fuel : nat) (s : string) : list string :=
  match fuel with
  | O => []
  | S f =>
      match s with
      | EmptyString => []
      | String c r =>
          if Ascii.eqb c quote then
            let '(field, rest) := readQuoted r EmptyString in
            field :: parseFrom f rest
          else
            match breakComma s with
            | None => [trim s]
            | Some (before, after) => trim before :: parseFrom f after
            end
      end
  end.

Definition parseCsvLine (line : string) : list string :=
  parseFrom (S (String.length line)) line.

(** A field as an unquoted CSV cell keeps it: no comma, no surrounding
    white space, no quote in front. *)
Definition plainField (f : string) : Prop :=
  breakComma f = None /\ trim f = f
  /\ match f with String c _ => Ascii.eqb c quote = false | EmptyString => True end.

Fixpoint noQuote (s : string) : bool :=
  match s with
  | EmptyString => true
  | String c r => negb (Ascii.eqb c quote) && noQuote r
  end.

(** The field between quotes. *)
Definition quoted (f : string) : string :=
  String quote (f ++ String quote EmptyString).

End Csv.

(** ** The viz hints a node element carries itself *)

Module HintSpec.
Import DOM Gexf.

(** [el] is named as the hint [name]: by its local name, or by a tag name
    [name], [viz:name] or ending in [:name]. *)
Definition namedAs (name : string) (el : Element) : bool :=
  String.eqb (localName el) name
  || (let tag := tagName el in
      String.eqb tag name
      || String.eqb tag ("viz:" ++ name)
      || JS.endsWith tag (":" ++ name)).

(** The child elements of [n] named as the hint [name]. *)
Definition ownHints (n : Element) (name : string) : list Element :=
  filter (namedAs name) (children n).

(** The hint that counts among them: the first one in the viz namespace,
    else the first one. *)
Definition chosen (name : string) (hints : list Element) : option Element :=
  match filter (matchesNS VIZ_NS name) hints with
  | byNs :: _ => Some byNs
  | [] => hd_error hints
  end.

(** No element of the viz namespace lies below a child of [n]: whatever
    hints there are, are children of [n]. *)
Definition hintsAreChildren (n : Element) : Prop :=
  forall c d, In c (children n) -> In d (descendants c) ->
              namespaceURI d <> Some VIZ_NS.

End HintSpec.

(** * Properties *)

(** ** The built-ins on sample inputs *)

Module JsExamples.
Example parseFloat_255 : JS.parseFloat "255" = JS.ofZ 255.
Proof. reflexivity. Qed.
Example parseFloat_frac : JS.parseFloat "  -12.5e1xyz" = JS.ofZ (-125).
Proof. reflexivity. Qed.
Example parseFloat_half : JS.parseFloat ".5" = JS.Finite (1 # 2).
Proof. reflexivity. Qed.
Example parseFloat_abc : JS.parseFloat "abc" = JS.NaN.
Proof. reflexivity. Qed.
Example parseFloat_dot : JS.parseFloat "." = JS.NaN.
Proof. reflexivity. Qed.
Example toString16_255 : JS.toString16 (JS.ofZ 255) = "ff".
Proof. reflexivity. Qed.
Example toString16_10 : JS.padStart 2 "0" (JS.toString16 (JS.ofZ 10)) = "0a".
Proof. reflexivity. Qed.
Example round_half : JS.Math_round (JS.Finite (5 # 2)) = JS.ofZ 3.
Proof. reflexivity. Qed.
Example round_neg_half : JS.Math_round (JS.Finite (-5 # 2)) = JS.ofZ (-2).
Proof. reflexivity. Qed.
Example lower_ex : JS.toLowerCase "Hello World" = "hello world".
Proof. reflexivity. Qed.
Example includes_ex : JS.includes "hello world" "o w" = true.
Proof. reflexivity. Qed.
Example endsWith_ex : JS.endsWith "viz:color" ":color" = true.
Proof. reflexivity. Qed.
Example parseFloat_trailing_dot : JS.parseFloat "5." = JS.ofZ 5.
Proof. reflexivity. Qed.
Example parseFloat_infinity : JS.parseFloat "-Infinity" = JS.Infinity true.
Proof. reflexivity. Qed.
Example parseInt_ex : JS.parseInt10 " 42px" = JS.ofZ 42.
Proof. reflexivity. Qed.
Example parseInt_nan : JS.parseInt10 "many" = JS.NaN.
Proof. reflexivity. Qed.
Example rgbToHex_red : Gexf.rgbToHex (JS.ofZ 255) (JS.ofZ 0) (JS.ofZ 0) = "#ff0000".
Proof. reflexivity. Qed.
Example rgbToHex_clamps :
  Gexf.rgbToHex (JS.ofZ 300) (JS.ofZ (-5)) (JS.Finite (255 # 2)) = "#ff0080".
Proof. reflexivity. Qed.
End JsExamples.

(** ** Facts about the insertion-ordered map *)

Module JsMapFacts.
Section WithValue.
Context {V : Type}.
Implicit Types (m : JsMap.t V) (k : string) (v : V).

Lemma get_set_eq m k v : JsMap.get k (JsMap.set k v m) = Some v.
Proof.
  induction m as [|[k' v'] r IH]; simpl.
  - now rewrite String.eqb_refl.
  - destruct (String.eqb k' k) eqn:E; simpl.
    + now rewrite String.eqb_refl.
    + now rewrite E.
Qed.

Lemma get_set_ne m k k' v :
  k <> k' -> JsMap.get k' (JsMap.set k v m) = JsMap.get k' m.
Proof.
  intros Hne. induction m as [|[k0 v0] r IH]; simpl.
  - destruct (String.eqb_spec k k'); congruence.
  - destruct (String.eqb_spec k0 k) as [->|Hk]; simpl.
    + destruct (String.eqb_spec k k'); congruence.
    + destruct (String.eqb_spec k0 k'); auto.
Qed.

Lemma keys_set m k v :
  JsMap.keys (JsMap.set k v m)
  = if JsMap.has k m then JsMap.keys m else (JsMap.keys m ++ [k])%list.
Proof.
  unfold JsMap.has. induction m as [|[k0 v0] r IH]; simpl; auto.
  destruct (String.eqb_spec k0 k) as [->|Hk]; simpl; auto.
  fold (JsMap.keys (V:=V)) in *. rewrite IH.
  destruct (JsMap.get k r); reflexivity.
Qed.

Lemma has_in_keys m k : JsMap.has k m = true <-> In k (JsMap.keys m).
Proof.
  unfold JsMap.has. induction m as [|[k0 v0] r IH]; simpl.
  - split; [discriminate | tauto].
  - destruct (String.eqb_spec k0 k) as [->|Hk].
    + split; auto.
    + rewrite IH. split; auto. intros [H|H]; [congruence | auto].
Qed.

Lemma get_in m k v : JsMap.get k m = Some v -> In (k, v) m.
Proof.
  induction m as [|[k0 v0] r IH]; simpl; [discriminate|].
  destruct (String.eqb_spec k0 k) as [->|Hk].
  - intros [= ->]. now left.
  - intros H. right. auto.
Qed.

Lemma in_get m k v : NoDup (JsMap.keys m) -> In (k, v) m -> JsMap.get k m = Some v.
Proof.
  induction m as [|[k0 v0] r IH]; simpl; [tauto|].
  intros Hnd [H|H].
  - injection H as -> ->. now rewrite String.eqb_refl.
  - inversion Hnd as [|? ? Hnot Hnd']; subst.
    destruct (String.eqb_spec k0 k) as [->|Hk].
    + exfalso. apply Hnot. change k with (fst (k, v)). now apply in_map.
    + auto.
Qed.

Lemma keys_set_NoDup m k v :
  NoDup (JsMap.keys m) -> NoDup (JsMap.keys (JsMap.set k v m)).
Proof.
  intros Hnd. rewrite keys_set. destruct (JsMap.has k m) eqn:E; auto.
  apply NoDup_rev in Hnd. rewrite <- (rev_involutive (_ ++ _)%list).
  apply NoDup_rev. rewrite rev_app_distr. simpl. constructor; auto.
  rewrite <- in_rev. intros Hin. apply has_in_keys in Hin. congruence.
Qed.
End WithValue.
End JsMapFacts.

(** ** Facts about the node table and the edge loop of the parser *)

Module GexfFacts.
Import DOM Gexf.

Lemma find_app_last {A : Type} (p : A -> bool) (l : list A) (a : A) :
  find p (l ++ [a]) = match find p l with
                      | Some b => Some b
                      | None => if p a then Some a else None
                      end.
Proof.
  induction l as [|b l IH]; simpl; [reflexivity|].
  destruct (p b); auto.
Qed.

Section WithOptions.
Variable options : Options.

Lemma keyed_set m v : keyed m -> keyed (JsMap.set (id v) v m).
Proof.
  unfold keyed. induction m as [|[k0 v0] r IH]; simpl; intros Hm k w.
  - intros [[= <- <-]|[]]. reflexivity.
  - destruct (String.eqb_spec k0 (id v)) as [->|Hk]; simpl.
    + intros [[= <- <-]|H]; auto.
    + intros [[= <- <-]|H]; auto.
Qed.

Lemma fold_addNode_inv l : forall m,
  keyed m -> NoDup (JsMap.keys m) ->
  keyed (fold_left (addNode options) l m) /\ NoDup (JsMap.keys (fold_left (addNode options) l m)).
Proof.
  induction l as [|n l IH]; simpl; intros m Hk Hn; [auto|].
  apply IH.
  - apply keyed_set; assumption.
  - apply JsMapFacts.keys_set_NoDup; assumption.
Qed.

(** The table holds, under each id, the node of the last element that
    carries this id. *)
Lemma fold_addNode_get l : forall m k,
  JsMap.get k (fold_left (addNode options) l m)
  = match find (hasId options k) (rev l) with
    | Some n => Some (nodeOfElement options n)
    | None => JsMap.get k m
    end.
Proof.
  induction l as [|n l IH]; simpl; intros m k; [reflexivity|].
  rewrite IH, find_app_last.
  destruct (find (hasId options k) (rev l)); [reflexivity|].
  unfold hasId, addNode.
  destruct (String.eqb_spec (id (nodeOfElement options n)) k) as [<-|Hne].
  - apply JsMapFacts.get_set_eq.
  - apply JsMapFacts.get_set_ne; assumption.
Qed.

Lemma buildNodeMap_inv nodeList :
  keyed (buildNodeMap options nodeList)
  /\ NoDup (JsMap.keys (buildNodeMap options nodeList)).
Proof.
  apply (fold_addNode_inv nodeList JsMap.empty).
  - intros k v [].
  - constructor.
Qed.

Lemma buildNodeMap_get nodeList k :
  JsMap.get k (buildNodeMap options nodeList)
  = option_map (nodeOfElement options) (find (hasId options k) (rev nodeList)).
Proof.
  unfold buildNodeMap. rewrite fold_addNode_get.
  destruct (find (hasId options k) (rev nodeList)); reflexivity.
Qed.

Lemma keyed_ids m : keyed m -> map id (JsMap.values m) = JsMap.keys m.
Proof.
  unfold JsMap.values, JsMap.keys. induction m as [|[k v] r IH]; simpl; intros Hk.
  - reflexivity.
  - f_equal.
    + apply Hk. now left.
    + apply IH. intros k' v' H. apply Hk. now right.
Qed.

Lemma get_in_values (m : JsMap.t GraphNode) k v :
  JsMap.get k m = Some v -> In v (JsMap.values m).
Proof.
  intros H. apply JsMapFacts.get_in in H.
  unfold JsMap.values. change v with (snd (k, v)). now apply in_map.
Qed.

Lemma nodes_ids nodeList :
  map id (JsMap.values (buildNodeMap options nodeList))
  = JsMap.keys (buildNodeMap options nodeList).
Proof. apply keyed_ids, buildNodeMap_inv. Qed.

Lemma has_node_id nodeList k :
  JsMap.has k (buildNodeMap options nodeList) = true
  <-> In k (map id (JsMap.values (buildNodeMap options nodeList))).
Proof. rewrite nodes_ids. apply JsMapFacts.has_in_keys. Qed.
End WithOptions.

(** What the edge loop pushes for one edge element. *)
Lemma linkOfElement_some m e l :
  linkOfElement m e = Some l ->
  exists s t sn tn,
    getAttribute e "source" = Some s /\ getAttribute e "target" = Some t
    /\ s <> "" /\ t <> ""
    /\ JsMap.get s m = Some sn /\ JsMap.get t m = Some tn
    /\ l = {| source := EndNode sn; target := EndNode tn;
              value := JS.parseFloat (orElse (getAttribute e "weight") "1") |}.
Proof.
  unfold linkOfElement.
  destruct (getAttribute e "source") as [s|]; [|discriminate].
  destruct (getAttribute e "target") as [t|]; [|discriminate].
  destruct (JS.truthy_string s) eqn:Es; simpl; [|discriminate].
  destruct (JS.truthy_string t) eqn:Et; simpl; [|discriminate].
  destruct (JsMap.has s m && JsMap.has t m); [|discriminate].
  destruct (JsMap.get s m) as [sn|] eqn:Gs; [|discriminate].
  destruct (JsMap.get t m) as [tn|] eqn:Gt; [|discriminate].
  intros [= <-]. exists s, t, sn, tn.
  repeat split; auto; intros ->; discriminate.
Qed.

Lemma buildLinks_in m edgeList l :
  In l (buildLinks m edgeList) ->
  exists e, In e edgeList /\ linkOfElement m e = Some l.
Proof.
  induction edgeList as [|e r IH]; simpl; [tauto|].
  destruct (linkOfElement m e) as [l'|] eqn:E.
  - intros [<-|H].
    + exists e. auto.
    + destruct (IH H) as [e' [? ?]]. exists e'. auto.
  - intros H. destruct (IH H) as [e' [? ?]]. exists e'. auto.
Qed.

End GexfFacts.

(** ** Edges resolve to present nodes *)

Module ResolutionFacts.
Import DOM Gexf GexfFacts Resolution.

Lemma setHas_In ids s : Community.setHas ids s = true <-> In s ids.
Proof.
  unfold Community.setHas. rewrite existsb_exists. split.
  - intros [k [Hin Heq]]. apply String.eqb_eq in Heq. now subst.
  - intros H. exists s. split; [assumption | apply String.eqb_refl].
Qed.

Lemma has_setHas options nodeList s :
  JsMap.has s (buildNodeMap options nodeList)
  = Community.setHas (map id (JsMap.values (buildNodeMap options nodeList))) s.
Proof.
  apply eq_true_iff_eq. rewrite has_node_id, setHas_In. reflexivity.
Qed.

Lemma parseDocument_return doc options nd :
  parseDocument doc options = Return nd ->
  exists graph rest,
    querySelector doc "parsererror" = None
    /\ docGetElementsByTagNameNS doc GEXF_NS "graph" = graph :: rest
    /\ nd = graphOf graph options.
Proof.
  unfold parseDocument.
  destruct (querySelector doc "parsererror"); [discriminate|].
  destruct (docGetElementsByTagNameNS doc GEXF_NS "graph") as [|graph rest];
    [discriminate|].
  intros [= <-]. exists graph, rest. auto.
Qed.

(** Every link pushed by the edge loop points at nodes of the table. *)
Lemma graphOf_links_in_nodes graph options l :
  In l (links (graphOf graph options)) ->
  exists s t, source l = EndNode s /\ target l = EndNode t
              /\ In s (nodes (graphOf graph options))
              /\ In t (nodes (graphOf graph options)).
Proof.
  unfold graphOf; simpl. intros Hin.
  apply buildLinks_in in Hin. destruct Hin as [e [_ He]].
  apply linkOfElement_some in He.
  destruct He as (s & t & sn & tn & _ & _ & _ & _ & Gs & Gt & ->).
  exists sn, tn; simpl. repeat split; eauto using get_in_values.
Qed.

(** The edge loop pushes a link for an edge element exactly when both
    ends resolve, and then with the ends and weight the element gives. *)
Lemma linkOfElement_resolvable (m : JsMap.t GraphNode) e :
  keyed m ->
  (forall s, JsMap.has s m = Community.setHas (map id (JsMap.values m)) s) ->
  match linkOfElement m e with
  | Some l => resolvable (map id (JsMap.values m)) e = true /\ linkKey l = edgeKey e
  | None => resolvable (map id (JsMap.values m)) e = false
  end.
Proof.
  intros Hk Hhas. unfold linkOfElement, resolvable, edgeKey.
  destruct (getAttribute e "source") as [s|]; [|reflexivity].
  destruct (getAttribute e "target") as [t|]; [|reflexivity].
  rewrite <- !Hhas. unfold JsMap.has.
  destruct (JsMap.get s m) as [sn|] eqn:Gs, (JsMap.get t m) as [tn|] eqn:Gt;
    destruct (JS.truthy_string s), (JS.truthy_string t); simpl; auto.
  split; [reflexivity|].
  apply JsMapFacts.get_in in Gs, Gt. apply Hk in Gs, Gt.
  unfold linkKey; simpl. now rewrite Gs, Gt.
Qed.

(** The links are the resolvable edge elements, in document order. *)
Lemma buildLinks_keys options nodeList edgeList :
  let m := buildNodeMap options nodeList in
  map linkKey (buildLinks m edgeList)
  = map edgeKey (filter (resolvable (map id (JsMap.values m))) edgeList).
Proof.
  intros m. induction edgeList as [|e r IH]; simpl; [reflexivity|].
  pose proof (linkOfElement_resolvable m e
                (proj1 (buildNodeMap_inv options nodeList))
                (has_setHas options nodeList)) as H.
  destruct (linkOfElement m e) as [l|].
  - destruct H as [-> Hkey]. simpl. now rewrite Hkey, IH.
  - now rewrite H.
Qed.

End ResolutionFacts.

Module FilterFacts.
Import DomainFilter Community Resolution.

Lemma filteredData_active activeFilters papersList baseData :
  activeFilters <> [] ->
  filteredData CITATION activeFilters papersList baseData
  = {| nodes := filter (keepNode activeFilters papersList) (nodes baseData);
       links := filter (bothEndsPresent
                          (map id (filter (keepNode activeFilters papersList)
                                          (nodes baseData))))
                       (links baseData) |}.
Proof.
  intros Hne. unfold filteredData.
  destruct activeFilters as [|f fs]; [congruence|]. reflexivity.
Qed.

End FilterFacts.

(** C1, as stated, fails for the filter: the filter keeps the links of its
    input as they are, and the links of the JSON files and of the mock
    networks carry id strings.  Filtering the paper network p-1, p-2, p-3
    (links p-1 -> p-2 and p-1 -> p-3) by the domain MAN keeps p-1 and p-3
    and the link p-1 -> p-3, whose ends are the strings "p-1" and "p-3",
    not node objects of the filtered network. *)
Lemma filtered_link_ends_are_ids :
  let nd := Community.filteredData Community.CITATION [DomainFilter.DomainF "MAN"]
                                   [] Samples.paperNet in
  nodes nd = [Samples.paperNode "p-1" "MAN"; Samples.paperNode "p-3" "MAN"]
  /\ links nd = [ mkGraphLink (EndId "p-1") (EndId "p-3") (JS.ofZ 1) ]
  /\ ~ (forall l, In l (links nd) ->
          exists s t, source l = EndNode s /\ target l = EndNode t
                      /\ In s (nodes nd) /\ In t (nodes nd)).
Proof.
  cbv zeta. split; [reflexivity|]. split; [reflexivity|].
  intros H.
  destruct (H (mkGraphLink (EndId "p-1") (EndId "p-3") (JS.ofZ 1)))
    as (s & t & Hs & _); [left; reflexivity|].
  discriminate Hs.
Qed.

(** C1, amended.  Every link of a NetworkData returned by the GEXF parser
    has node objects of that NetworkData as its source and target, and the
    links are exactly the edge elements whose two ends resolve (an edge with
    a missing end is left out, and no error is thrown for it).  The links of
    a NetworkData produced by the citation-mode domain/subdomain filter are
    the links of its input whose two end ids (the end itself when it is an
    id string, the id of the node object otherwise) both belong to kept
    nodes; the ends themselves stay as they are in the input.  The document
    with nodes A, B, C and edges A->B (weight 2), A->Z yields the nodes
    A, B, C and the single link A->B. *)
Theorem links_resolve_to_present_nodes :
  (forall doc options nd,
      Gexf.parseDocument doc options = Gexf.Return nd ->
      (forall l, In l (links nd) ->
         exists s t, source l = EndNode s /\ target l = EndNode t
                     /\ In s (nodes nd) /\ In t (nodes nd))
      /\ exists graph,
           In graph (DOM.docGetElementsByTagNameNS doc Gexf.GEXF_NS "graph")
           /\ map Resolution.linkKey (links nd)
              = map Resolution.edgeKey
                    (filter (Resolution.resolvable (map id (nodes nd)))
                            (DOM.getElementsByTagNameNS graph Gexf.GEXF_NS "edge")))
  /\ (forall doc options graph rest,
         DOM.querySelector doc "parsererror" = None ->
         DOM.docGetElementsByTagNameNS doc Gexf.GEXF_NS "graph" = graph :: rest ->
         exists nd, Gexf.parseDocument doc options = Gexf.Return nd)
  /\ (forall activeFilters papersList baseData,
         activeFilters <> [] ->
         let nd := Community.filteredData Community.CITATION activeFilters
                                          papersList baseData in
         links nd = filter (Resolution.bothEndsPresent (map id (nodes nd)))
                           (links baseData)
         /\ forall l, In l (links nd) ->
              In (Community.linkEndId (source l)) (map id (nodes nd))
              /\ In (Community.linkEndId (target l)) (map id (nodes nd)))
  /\ (forall options,
         Gexf.parseDocument Samples.danglingDoc options
         = Gexf.Return
             {| nodes := [Samples.plainNode "A" "A"; Samples.plainNode "B" "B";
                          Samples.plainNode "C" "C"];
                links := [ {| source := EndNode (Samples.plainNode "A" "A");
                              target := EndNode (Samples.plainNode "B" "B");
                              value := JS.ofZ 2 |} ] |}).
Proof.
  split; [|split; [|split]].
  - intros doc options nd H.
    apply ResolutionFacts.parseDocument_return in H.
    destruct H as (graph & rest & _ & Hg & ->). split.
    + intros l. apply ResolutionFacts.graphOf_links_in_nodes.
    + exists graph. split; [rewrite Hg; now left|].
      apply ResolutionFacts.buildLinks_keys.
  - intros doc options graph rest Hpe Hg. unfold Gexf.parseDocument.
    rewrite Hpe, Hg. eauto.
  - intros activeFilters papersList baseData Hne nd. subst nd.
    rewrite FilterFacts.filteredData_active by assumption. simpl.
    split; [reflexivity|].
    intros l Hin. apply filter_In in Hin. destruct Hin as [_ Hb].
    apply andb_prop in Hb. destruct Hb as [Hs Ht].
    split; now apply ResolutionFacts.setHas_In.
  - intros [[] []]; vm_compute; reflexivity.
Qed.

Lemma links_resolve_to_present_nodes_witness :
  (forall l,
      In l [ {| source := EndNode (Samples.plainNode "A" "A");
                target := EndNode (Samples.plainNode "B" "B");
                value := JS.ofZ 2 |} ] ->
      exists s t, source l = EndNode s /\ target l = EndNode t
                  /\ In s [Samples.plainNode "A" "A"; Samples.plainNode "B" "B";
                           Samples.plainNode "C" "C"]
                  /\ In t [Samples.plainNode "A" "A"; Samples.plainNode "B" "B";
                           Samples.plainNode "C" "C"])
  /\ links (Community.filteredData Community.CITATION [DomainFilter.DomainF "MAN"]
                                   [] Samples.paperNet)
     = [ mkGraphLink (EndId "p-1") (EndId "p-3") (JS.ofZ 1) ].
Proof.
  destruct links_resolve_to_present_nodes as (Hparse & _ & Hfilter & Hex).
  split.
  - exact (proj1 (Hparse Samples.danglingDoc Samples.anyOptions _
                         (Hex Samples.anyOptions))).
  - destruct (Hfilter [DomainFilter.DomainF "MAN"] [] Samples.paperNet) as [Hl _].
    + discriminate.
    + rewrite Hl. reflexivity.
Defined.

(** C10. The node ids of a NetworkData returned by the parser are pairwise
    distinct: a node is in the output exactly when it is the node built from
    the last node element carrying its id, every id of a node element is
    represented, a node element without id attribute gets the id "" (so all
    of them collapse onto one node), and every link points at nodes of the
    output, hence at the surviving definitions. *)
Theorem node_ids_distinct_last_definition_wins :
  forall doc options nd,
    Gexf.parseDocument doc options = Gexf.Return nd ->
    NoDup (map id (nodes nd))
    /\ (exists graph,
          In graph (DOM.docGetElementsByTagNameNS doc Gexf.GEXF_NS "graph")
          /\ let nodeList := DOM.getElementsByTagNameNS graph Gexf.GEXF_NS "node" in
             (forall n, In n (nodes nd) <->
                exists el, find (Gexf.hasId options (id n)) (rev nodeList) = Some el
                           /\ n = Gexf.nodeOfElement options el)
             /\ (forall el, In el nodeList ->
                   In (id (Gexf.nodeOfElement options el)) (map id (nodes nd)))
             /\ (forall el, DOM.getAttribute el "id" = None ->
                   id (Gexf.nodeOfElement options el) = ""))
    /\ (forall l, In l (links nd) ->
          exists s t, source l = EndNode s /\ target l = EndNode t
                      /\ In s (nodes nd) /\ In t (nodes nd)).
Proof.
  intros doc options nd H.
  apply ResolutionFacts.parseDocument_return in H.
  destruct H as (graph & rest & _ & Hg & ->).
  unfold Gexf.graphOf at 1 2; simpl nodes.
  set (nodeList := DOM.getElementsByTagNameNS graph Gexf.GEXF_NS "node").
  destruct (GexfFacts.buildNodeMap_inv options nodeList) as [Hk Hnd].
  split; [|split].
  - rewrite GexfFacts.nodes_ids. exact Hnd.
  - exists graph. split; [rewrite Hg; now left|]. cbv zeta. fold nodeList.
    split; [|split].
    + intros n. split.
      * intros Hin. unfold JsMap.values in Hin. apply in_map_iff in Hin.
        destruct Hin as [[k v] [Heq Hin]]. simpl in Heq. subst v.
        pose proof (Hk _ _ Hin) as Hid. subst k.
        apply JsMapFacts.in_get in Hin; [|assumption].
        rewrite GexfFacts.buildNodeMap_get in Hin.
        destruct (find (Gexf.hasId options (id n)) (rev nodeList)) as [el|];
          [|discriminate].
        injection Hin as <-. eauto.
      * intros [el [Hf ->]].
        apply (GexfFacts.get_in_values _ (id (Gexf.nodeOfElement options el))).
        rewrite GexfFacts.buildNodeMap_get, Hf. reflexivity.
    + intros el Hin. apply GexfFacts.has_node_id.
      unfold JsMap.has. rewrite GexfFacts.buildNodeMap_get.
      destruct (find (Gexf.hasId options (id (Gexf.nodeOfElement options el)))
                     (rev nodeList)) eqn:Hf; [reflexivity|].
      exfalso. apply in_rev in Hin. apply (find_none _ _ Hf el) in Hin.
      unfold Gexf.hasId in Hin. now rewrite String.eqb_refl in Hin.
    + intros el Hnone. unfold Gexf.nodeOfElement. simpl. now rewrite Hnone.
  - intros l. apply ResolutionFacts.graphOf_links_in_nodes.
Qed.

Lemma node_ids_distinct_last_definition_wins_witness :
  Gexf.parseDocument Samples.duplicateDoc Samples.anyOptions
  = Gexf.Return Samples.duplicateResult
  /\ NoDup (map id (nodes Samples.duplicateResult)).
Proof.
  split; [reflexivity|].
  exact (proj1 (node_ids_distinct_last_definition_wins
                  Samples.duplicateDoc Samples.anyOptions
                  Samples.duplicateResult eq_refl)).
Defined.

(** ** Outcomes of the parser *)

Module OutcomeFacts.
Import DOM Gexf.




Lemma filter_all_false {A : Type} (p : A -> bool) l :
  (forall a, In a l -> p a = false) -> filter p l = [].
Proof.
  induction l as [|a l IH]; simpl; intros H; [reflexivity|].
  rewrite (H a (or_introl eq_refl)). apply IH. intros b Hb. apply H. now right.
Qed.





End OutcomeFacts.




(** ** Colour resolution *)

Module ColorFacts.
Import DOM Gexf ColorSpec.









End ColorFacts.



(** ** Per-node extraction *)

(** C7, as stated, fails: a positional hint whose x attribute is not numeric
    does not yield the coordinates (0, 0); x is NaN and y is the parsed
    value of its own attribute. *)
Lemma malformed_position_not_origin :
  x (Gexf.nodeOfElement Samples.anyOptions NodeSamples.malformedPositionNode)
  = Some JS.NaN
  /\ y (Gexf.nodeOfElement Samples.anyOptions NodeSamples.malformedPositionNode)
     = Some (JS.ofZ 7)
  /\ x (Gexf.nodeOfElement Samples.anyOptions NodeSamples.malformedPositionNode)
     <> Some (JS.ofZ 0).
Proof. split; [reflexivity | split; [reflexivity | discriminate]]. Qed.

Module HintFacts.
Import DOM Gexf HintSpec.

Lemma subtree_cons e : subtree e = e :: descendants e.
Proof.
  destruct e as [ns t l a c]. unfold descendants, children. simpl. f_equal.
  induction c as [|[txt|k] c IH]; simpl; [reflexivity | exact IH |].
  now rewrite IH.
Qed.

Lemma filter_narrow {A : Type} (p q : A -> bool) l :
  (forall a, p a = true -> q a = true) ->
  filter p (filter q l) = filter p l.
Proof.
  intros Hpq. induction l as [|a l IH]; simpl; [reflexivity|].
  destruct (q a) eqn:Eq; simpl.
  - destruct (p a); now rewrite IH.
  - destruct (p a) eqn:Ep; [|exact IH].
    apply Hpq in Ep. congruence.
Qed.

Lemma find_hd_filter {A : Type} (q : A -> bool) l :
  find q l = hd_error (filter q l).
Proof.
  induction l as [|a l IH]; simpl; [reflexivity|].
  destruct (q a); [reflexivity | exact IH].
Qed.

Lemma matchesNS_namedAs name e :
  matchesNS VIZ_NS name e = true -> namedAs name e = true.
Proof.
  unfold matchesNS, namedAs. intros H. apply andb_prop in H.
  destruct H as [_ ->]. reflexivity.
Qed.

Lemma matchesNS_namespace ns name e :
  matchesNS ns name e = true -> namespaceURI e = Some ns.
Proof.
  unfold matchesNS. intros H. apply andb_prop in H. destruct H as [H _].
  destruct (namespaceURI e) as [u|]; [|discriminate].
  simpl in H. apply String.eqb_eq in H. now subst.
Qed.

(** When the hints are children, the search among all descendants finds
    the children only. *)
Lemma viz_descendants_are_children n name :
  hintsAreChildren n ->
  getElementsByTagNameNS n VIZ_NS name
  = filter (matchesNS VIZ_NS name) (children n).
Proof.
  unfold hintsAreChildren, getElementsByTagNameNS, descendants.
  generalize (children n) as cs.
  induction cs as [|c cs IH]; intros H; simpl; [reflexivity|].
  rewrite filter_app, subtree_cons. simpl.
  assert (Hc : filter (matchesNS VIZ_NS name) (descendants c) = []).
  { apply OutcomeFacts.filter_all_false. intros d Hd.
    destruct (matchesNS VIZ_NS name d) eqn:E; [|reflexivity].
    exfalso. apply (H c d (or_introl eq_refl) Hd).
    now apply matchesNS_namespace in E. }
  rewrite Hc, IH.
  - destruct (matchesNS VIZ_NS name c); now rewrite ?app_nil_r.
  - intros c' d Hc' Hd. apply (H c' d); [now right | exact Hd].
Qed.

(** The hint [getVizChild] finds is the one chosen among the node's own
    hints. *)
Lemma getVizChild_chosen n name :
  hintsAreChildren n ->
  getVizChild n name = chosen name (ownHints n name).
Proof.
  intros H. unfold getVizChild, chosen, ownHints.
  rewrite (viz_descendants_are_children n name H).
  rewrite (filter_narrow (matchesNS VIZ_NS name) (namedAs name) (children n)
             (matchesNS_namedAs name)).
  destruct (filter (matchesNS VIZ_NS name) (children n)); [|reflexivity].
  apply (find_hd_filter (namedAs name)).
Qed.

Lemma chosen_nil name : chosen name [] = None.
Proof. reflexivity. Qed.

(** Where a viz element lies deeper, the search among all descendants
    reaches it: the wrapping node has no hint of its own and takes the
    position, colour and size of the node it wraps. *)
Lemma wrapped_hints_reach_the_wrapper :
  ownHints NodeSamples.wrappingNode "position" = []
  /\ ~ hintsAreChildren NodeSamples.wrappingNode
  /\ x (nodeOfElement Samples.anyOptions NodeSamples.wrappingNode) = Some (JS.ofZ 1)
  /\ y (nodeOfElement Samples.anyOptions NodeSamples.wrappingNode) = Some (JS.ofZ 2)
  /\ color (nodeOfElement Samples.anyOptions NodeSamples.wrappingNode) = "#ff0000"
  /\ val (nodeOfElement Samples.anyOptions NodeSamples.wrappingNode) = JS.ofZ 9.
Proof.
  split; [reflexivity|]. split.
  - intros H.
    apply (H (Samples.gexfElem "nodes" []
                [Samples.nodeElem "inner"
                   [Samples.vizElem "position"
                      [Samples.plainAttr "x" "1"; Samples.plainAttr "y" "2"];
                    Samples.vizElem "color" [Samples.plainAttr "hex" "ff0000"];
                    Samples.vizElem "size" [Samples.plainAttr "value" "9"]]])
             (Samples.vizElem "position"
                [Samples.plainAttr "x" "1"; Samples.plainAttr "y" "2"])).
    + left. reflexivity.
    + right. left. reflexivity.
    + reflexivity.
  - repeat split; reflexivity.
Qed.

End HintFacts.

(** C7, amended.  For a node element whose viz hints, if any, are its own
    children (no element of the viz namespace lies deeper), each optional
    field defaults on its own: a missing label attribute yields the id as
    label; a node element without a child named position yields x = 0 and
    y = 0; otherwise the position used is the first viz-namespace child of
    that name, else the first child so named, a coordinate attribute it
    lacks yields 0 for that coordinate, and one it has is converted by
    parseFloat; no child named color yields the gray #94a3b8; no child named
    size, or a size hint without value attribute, yields 5.  For two such
    node elements the id is decided by the id attribute, the label by the id
    and label attributes, the coordinates, the colour and the size each by
    the node's own children of that name, the group and the paper count by
    the attvalues elements below the node, and the node type is the same:
    the absence of one hint does not change another field. *)
Theorem node_fields_default_independently :
  forall options n,
    HintSpec.hintsAreChildren n ->
    let node := Gexf.nodeOfElement options n in
    (DOM.getAttribute n "label" = None ->
       label node = id node /\ fullLabel node = Some (id node))
    /\ (HintSpec.ownHints n "position" = [] ->
          x node = Some (JS.ofZ 0) /\ y node = Some (JS.ofZ 0))
    /\ (forall pos,
          HintSpec.chosen "position" (HintSpec.ownHints n "position") = Some pos ->
          x node = Some match Gexf.attr pos "x" with
                        | None => JS.ofZ 0
                        | Some v => JS.parseFloat v
                        end
          /\ y node = Some match Gexf.attr pos "y" with
                           | None => JS.ofZ 0
                           | Some v => JS.parseFloat v
                           end)
    /\ (HintSpec.ownHints n "color" = [] -> color node = "#94a3b8")
    /\ (HintSpec.ownHints n "size" = [] -> val node = JS.ofZ 5)
    /\ (forall sizeEl,
          HintSpec.chosen "size" (HintSpec.ownHints n "size") = Some sizeEl ->
          Gexf.attr sizeEl "value" = None -> val node = JS.ofZ 5)
    /\ (forall n',
          HintSpec.hintsAreChildren n' ->
          let node' := Gexf.nodeOfElement options n' in
          (DOM.getAttribute n "id" = DOM.getAttribute n' "id" -> id node = id node')
          /\ (DOM.getAttribute n "id" = DOM.getAttribute n' "id" ->
              DOM.getAttribute n "label" = DOM.getAttribute n' "label" ->
              label node = label node' /\ fullLabel node = fullLabel node')
          /\ (HintSpec.ownHints n "position" = HintSpec.ownHints n' "position" ->
              x node = x node' /\ y node = y node')
          /\ (HintSpec.ownHints n "color" = HintSpec.ownHints n' "color" ->
              color node = color node')
          /\ (HintSpec.ownHints n "size" = HintSpec.ownHints n' "size" ->
              val node = val node')
          /\ (DOM.getElementsByTagNameNS n Gexf.GEXF_NS "attvalues"
              = DOM.getElementsByTagNameNS n' Gexf.GEXF_NS "attvalues" ->
              group node = group node'
              /\ topCitedPaperCount node = topCitedPaperCount node')
          /\ nodeType node = nodeType node').
Proof.
  intros options n Hn node. subst node. unfold Gexf.nodeOfElement. simpl.
  rewrite !(HintFacts.getVizChild_chosen n) by exact Hn.
  repeat match goal with |- _ /\ _ => split end.
  - intros ->. split; reflexivity.
  - intros ->. split; reflexivity.
  - intros pos ->. unfold Gexf.readCoord.
    destruct (Gexf.attr pos "x"), (Gexf.attr pos "y"); split; reflexivity.
  - intros ->. reflexivity.
  - intros ->. reflexivity.
  - intros sizeEl -> Hv. unfold Gexf.readSize. rewrite Hv. reflexivity.
  - intros n' Hn'. cbv zeta. simpl.
    rewrite !(HintFacts.getVizChild_chosen n') by exact Hn'.
    repeat match goal with |- _ /\ _ => split end.
    + intros ->. reflexivity.
    + intros -> ->. split; reflexivity.
    + intros ->. split; reflexivity.
    + intros ->. reflexivity.
    + intros ->. reflexivity.
    + unfold Gexf.getAttValue. intros ->. split; reflexivity.
    + destruct (Gexf.coauthorship options), (Gexf.citation options); try reflexivity;
      repeat match goal with |- context [if ?c then _ else _] => destruct c end;
      reflexivity.
Qed.

Lemma node_fields_default_independently_witness :
  Gexf.nodeOfElement Samples.anyOptions NodeSamples.bareNode
  = Samples.plainNode "A" "A"
  /\ (label (Gexf.nodeOfElement Samples.anyOptions NodeSamples.bareNode) = "A"
      /\ fullLabel (Gexf.nodeOfElement Samples.anyOptions NodeSamples.bareNode)
         = Some "A")
  /\ (x (Gexf.nodeOfElement Samples.anyOptions NodeSamples.bareNode)
      = Some (JS.ofZ 0)
      /\ y (Gexf.nodeOfElement Samples.anyOptions NodeSamples.bareNode)
         = Some (JS.ofZ 0))
  /\ color (Gexf.nodeOfElement Samples.anyOptions NodeSamples.bareNode) = "#94a3b8"
  /\ val (Gexf.nodeOfElement Samples.anyOptions NodeSamples.bareNode) = JS.ofZ 5
  /\ (x (Gexf.nodeOfElement Samples.anyOptions NodeSamples.partialPositionNode)
      = Some (JS.ofZ 0)
      /\ y (Gexf.nodeOfElement Samples.anyOptions NodeSamples.partialPositionNode)
         = Some (JS.ofZ 7)).
Proof.
  assert (Hbare : HintSpec.hintsAreChildren NodeSamples.bareNode).
  { intros c d Hc. simpl in Hc. contradiction. }
  assert (Hpartial : HintSpec.hintsAreChildren NodeSamples.partialPositionNode).
  { intros c d Hc Hd. simpl in Hc. destruct Hc as [<- | []].
    simpl in Hd. contradiction. }
  destruct (node_fields_default_independently Samples.anyOptions
              NodeSamples.bareNode Hbare)
    as (Hlabel & Hpos & _ & Hcolor & Hsize & _ & _).
  split; [reflexivity|].
  split; [apply Hlabel; reflexivity|].
  split; [apply Hpos; reflexivity|].
  split; [apply Hcolor; reflexivity|].
  split; [apply Hsize; reflexivity|].
  destruct (node_fields_default_independently Samples.anyOptions
              NodeSamples.partialPositionNode Hpartial)
    as (_ & _ & Hcoord & _).
  apply (Hcoord (Samples.vizElem "position" [Samples.plainAttr "y" "7"])).
  reflexivity.
Defined.

(** ** Layout selection *)

(** C4, as stated, fails on the empty dataset: every node (there is none)
    carries numeric coordinates, yet the imported-layout mode is not
    selected and a force simulation is started. *)
Lemma empty_dataset_starts_simulation :
  LayoutSamples.hasCoordinates LayoutSamples.emptyData
  /\ Community.hasGexfLayout LayoutSamples.emptyData = false
  /\ exists sim,
       Community.startSimulation 800 Community.CITATION LayoutSamples.emptyData
       = Some sim.
Proof.
  split; [intros d []|]. split; [reflexivity|]. eexists. reflexivity.
Qed.

(** C4, amended.  A dataset with at least one node in which every node
    carries numeric x and y selects the imported layout and starts no
    simulation; a dataset that is empty, or in which some node lacks a
    numeric coordinate, starts a force simulation over its nodes and links. *)
Theorem layout_mode_selection :
  forall width mode data,
    (nodes data <> [] -> LayoutSamples.hasCoordinates data ->
       Community.hasGexfLayout data = true
       /\ Community.startSimulation width mode data = None)
    /\ (nodes data = [] \/ LayoutSamples.lacksCoordinate data ->
          Community.hasGexfLayout data = false
          /\ exists sim,
               Community.startSimulation width mode data = Some sim
               /\ Community.sim_nodes sim = nodes data
               /\ Community.sim_links sim = links data).
Proof.
  intros width mode data. unfold Community.startSimulation. split.
  - intros Hne Hall.
    assert (H : Community.hasGexfLayout data = true).
    { unfold Community.hasGexfLayout. apply andb_true_intro. split.
      - destruct (nodes data); [congruence | reflexivity].
      - apply forallb_forall. intros d Hd.
        destruct (Hall d Hd) as [-> ->]. reflexivity. }
    rewrite H. auto.
  - intros Hbad.
    assert (H : Community.hasGexfLayout data = false).
    { unfold Community.hasGexfLayout. destruct Hbad as [-> | [d [Hd Hlack]]].
      - reflexivity.
      - apply andb_false_intro2.
        destruct (forallb _ (nodes data)) eqn:E; [|reflexivity].
        rewrite forallb_forall in E. specialize (E d Hd).
        apply andb_prop in E. destruct E as [Ex Ey].
        destruct Hlack; congruence. }
    rewrite H. split; [reflexivity|]. eexists. simpl. repeat split.
Qed.

Lemma layout_mode_selection_witness :
  (Community.hasGexfLayout Samples.duplicateResult = true
   /\ Community.startSimulation 800 Community.SOCIAL Samples.duplicateResult = None)
  /\ (Community.hasGexfLayout Samples.paperNet = false
      /\ exists sim,
           Community.startSimulation 800 Community.CITATION Samples.paperNet = Some sim
           /\ Community.sim_nodes sim = nodes Samples.paperNet
           /\ Community.sim_links sim = links Samples.paperNet).
Proof.
  split.
  - apply (proj1 (layout_mode_selection 800 Community.SOCIAL Samples.duplicateResult)).
    + discriminate.
    + intros d Hd. simpl in Hd.
      destruct Hd as [<- | [<- | [<- | []]]]; split; reflexivity.
  - apply (proj2 (layout_mode_selection 800 Community.CITATION Samples.paperNet)).
    right. exists (Samples.paperNode "p-1" "MAN").
    split; [left; reflexivity | left; reflexivity].
Defined.

(** ** Search highlight *)

Module SearchFacts.
Import SearchSpec.

Lemma prefix_occurs t : forall s,
  String.prefix t s = true <-> exists post, s = t ++ post.
Proof.
  induction t as [|c t IH]; intros s; simpl.
  - split; [intros _; exists s; reflexivity | destruct s; reflexivity].
  - destruct s as [|c' s]; simpl.
    + split; [discriminate | intros [post H]; discriminate].
    + destruct (Ascii.ascii_dec c c') as [<-|Hne].
      * rewrite IH. split; intros [post H]; exists post; congruence.
      * split; [discriminate | intros [post H]; congruence].
Qed.

Lemma includes_unfold s t :
  JS.includes s t
  = if String.prefix t s then true
    else match s with
         | EmptyString => false
         | String _ r => JS.includes r t
         end.
Proof. destruct s; reflexivity. Qed.

Lemma includes_occurs s : forall t,
  JS.includes s t = true <-> occursIn t s.
Proof.
  unfold occursIn. induction s as [|c s IH]; intros t;
    rewrite includes_unfold;
    match goal with |- context [String.prefix t ?u] =>
      destruct (String.prefix t u) eqn:E end.
  - split; [|reflexivity]. intros _. apply prefix_occurs in E.
    destruct E as [post E]. exists "", post. exact E.
  - split; [discriminate|]. intros [pre [post H]].
    destruct pre; [|discriminate]. simpl in H.
    assert (String.prefix t "" = true) by (apply prefix_occurs; eauto).
    congruence.
  - split; [|reflexivity]. intros _. apply prefix_occurs in E.
    destruct E as [post E]. exists "", post. exact E.
  - rewrite IH. split.
    + intros [pre [post H]]. exists (String c pre), post. simpl. now rewrite H.
    + intros [pre [post H]]. destruct pre as [|c' pre].
      * simpl in H.
        assert (String.prefix t (String c s) = true)
          by (apply prefix_occurs; eauto).
        congruence.
      * simpl in H. injection H as _ H. eauto.
Qed.

Lemma toLowerCase_truthy s : s <> "" -> JS.truthy_string (JS.toLowerCase s) = true.
Proof. destruct s; [congruence | reflexivity]. Qed.

End SearchFacts.

(** C9. With a non-empty search term, a node is highlighted exactly when the
    lower-cased term occurs in its lower-cased short label or in its
    lower-cased full label; a highlighted node is drawn at opacity 1 and any
    other node at opacity 0.1; hover state and open windows do not change
    this opacity; in particular a term that occurs in the full label gives
    opacity 1 even when it does not occur in the short label. *)
Theorem search_match_overrides_hover :
  forall hs d,
    Community.searchTerm hs <> "" ->
    (Community.isHighlight hs d = true <->
       SearchSpec.matchesLabel (Community.searchTerm hs) (label d)
       \/ SearchSpec.matchesLabel (Community.searchTerm hs) (orElse (fullLabel d) ""))
    /\ Community.nodeOpacity hs d
       = (if Community.isHighlight hs d then JS.ofZ 1 else JS.Finite (1 # 10))
    /\ (forall hn hl ws,
          Community.nodeOpacity (SearchSpec.withHover hs hn hl ws) d
          = Community.nodeOpacity hs d)
    /\ (SearchSpec.matchesLabel (Community.searchTerm hs) (orElse (fullLabel d) "") ->
          Community.nodeOpacity hs d = JS.ofZ 1).
Proof.
  intros hs d Hterm.
  pose proof (SearchFacts.toLowerCase_truthy _ Hterm) as Ht.
  assert (Hiff : Community.isHighlight hs d = true <->
                 SearchSpec.matchesLabel (Community.searchTerm hs) (label d)
                 \/ SearchSpec.matchesLabel (Community.searchTerm hs)
                                            (orElse (fullLabel d) "")).
  { unfold Community.isHighlight, SearchSpec.matchesLabel. rewrite Ht.
    rewrite orb_true_iff, !SearchFacts.includes_occurs. reflexivity. }
  assert (Hop : forall hs', Community.searchTerm hs' = Community.searchTerm hs ->
                  Community.nodeOpacity hs' d
                  = if JS.includes (JS.toLowerCase (label d))
                                   (JS.toLowerCase (Community.searchTerm hs))
                       || JS.includes (JS.toLowerCase (orElse (fullLabel d) ""))
                                      (JS.toLowerCase (Community.searchTerm hs))
                    then JS.ofZ 1 else JS.Finite (1 # 10)).
  { intros hs' E. unfold Community.nodeOpacity, Community.isHighlight.
    rewrite E, Ht. reflexivity. }
  split; [exact Hiff|]. split; [|split].
  - rewrite (Hop hs eq_refl). unfold Community.isHighlight. now rewrite Ht.
  - intros hn hl ws. rewrite (Hop hs eq_refl). apply Hop. reflexivity.
  - intros Hfull.
    assert (Hh : Community.isHighlight hs d = true) by (apply Hiff; now right).
    rewrite (Hop hs eq_refl). unfold Community.isHighlight in Hh.
    rewrite Ht in Hh. now rewrite Hh.
Qed.

Lemma search_match_overrides_hover_witness :
  JS.includes (JS.toLowerCase (label SearchSpec.titledPaper))
              (JS.toLowerCase "NETWORK") = false
  /\ Community.nodeOpacity SearchSpec.searching SearchSpec.titledPaper = JS.ofZ 1
  /\ Community.nodeOpacity SearchSpec.searching SearchSpec.otherPaper
     = JS.Finite (1 # 10).
Proof.
  split; [reflexivity|].
  destruct (search_match_overrides_hover SearchSpec.searching SearchSpec.titledPaper)
    as (_ & _ & _ & Hfull); [discriminate|].
  split.
  - apply Hfull. exists "optimizing supply ", "s". reflexivity.
  - destruct (search_match_overrides_hover SearchSpec.searching SearchSpec.otherPaper)
      as (_ & Hop & _); [discriminate|].
    rewrite Hop. reflexivity.
Defined.

(** ** Floating windows *)

Module WindowFacts.
Import Community WindowSpec.

Lemma map_id_preserved (f : WindowState -> WindowState) ws :
  (forall w, win_id (f w) = win_id w) ->
  map win_id (map f ws) = map win_id ws.
Proof.
  intros Hf. rewrite map_map. apply map_ext. exact Hf.
Qed.

Lemma hasWindow_In ws i : hasWindow ws i = true <-> In i (map win_id ws).
Proof.
  unfold hasWindow. rewrite existsb_exists, in_map_iff. split.
  - intros [w [Hin Heq]]. apply String.eqb_eq in Heq. eauto.
  - intros [w [Heq Hin]]. exists w. split; [assumption|]. now apply String.eqb_eq.
Qed.

Lemma NoDup_map_filter {A B : Type} (f : A -> B) (p : A -> bool) l :
  NoDup (map f l) -> NoDup (map f (filter p l)).
Proof.
  induction l as [|a l IH]; simpl; intros Hnd; [constructor|].
  inversion Hnd as [|? ? Hnot Hnd']; subst.
  destruct (p a); simpl; auto.
  constructor; auto.
  intros Hin. apply Hnot. apply in_map_iff in Hin.
  destruct Hin as [b [Heq Hin]]. apply filter_In in Hin.
  apply in_map_iff. exists b. tauto.
Qed.

Lemma NoDup_snoc {A : Type} (l : list A) a :
  NoDup l -> ~ In a l -> NoDup (l ++ [a]).
Proof.
  intros Hnd Hnot. apply NoDup_rev in Hnd.
  rewrite <- (rev_involutive (l ++ [a])). apply NoDup_rev.
  rewrite rev_app_distr. simpl. constructor; auto.
  now rewrite <- in_rev.
Qed.

(** Raising the windows of one id to a z-index that is at most one above
    the counter keeps the invariant. *)
Lemma raise_invariant st i z :
  (z <= nextZIndex st + 1)%Z ->
  invariant st ->
  invariant
    (setNextZIndex (fun z => z + 1)%Z
       (setWindows (map (fun w => if String.eqb (win_id w) i
                                  then withZ z w else w)) st)).
Proof.
  intros Hzle (Hnd & Hz & Hc). split; [|split].
  - unfold oneWindowPerId; simpl. rewrite map_id_preserved; [exact Hnd|].
    intros w. destruct (String.eqb (win_id w) i); reflexivity.
  - intros w; simpl. rewrite in_map_iff. intros [w0 [<- Hin]].
    specialize (Hz w0 Hin).
    destruct (String.eqb (win_id w0) i); simpl; lia.
  - unfold closureBehind in *; simpl. lia.
Qed.

Lemma addWindow_invariant cw node ax ay st :
  invariant st -> invariant (addWindow cw node ax ay st).
Proof.
  intros Hinv. unfold addWindow, setWindows at 1.
  destruct (hasWindow (windows st) (id node)) eqn:E.
  - apply (raise_invariant st (id node) (closureZ st + 1)); [|exact Hinv].
    destruct Hinv as (_ & _ & Hc). unfold closureBehind in Hc. lia.
  - destruct Hinv as (Hnd & Hz & Hc). unfold closureBehind in Hc.
    split; [|split].
    + unfold oneWindowPerId; simpl. rewrite map_app; simpl.
      apply NoDup_snoc; [exact Hnd|].
      intros Hin. apply hasWindow_In in Hin. congruence.
    + intros w; simpl. rewrite in_app_iff. intros [Hin | [<- | []]].
      * specialize (Hz w Hin). lia.
      * simpl. lia.
    + unfold closureBehind; simpl. lia.
Qed.

Lemma step_invariant st ev : invariant st -> invariant (step st ev).
Proof.
  intros Hinv.
  destruct ev as [cw node sx sy | i | cx cy i px py | cx cy | | |]; simpl.
  - now apply addWindow_invariant.
  - destruct Hinv as (Hnd & Hz & Hc). split; [|split].
    + unfold oneWindowPerId; simpl. now apply NoDup_map_filter.
    + intros w; simpl. intros Hin. apply filter_In in Hin. now apply Hz.
    + exact Hc.
  - unfold handleMouseDown, bringToFront.
    apply (raise_invariant
             {| windows := windows st; nextZIndex := nextZIndex st;
                draggingId := Some i;
                dragOffset := (JS.sub cx px, JS.sub cy py);
                closureZ := closureZ st |} i (nextZIndex st + 1)).
    + simpl. lia.
    + exact Hinv.
  - unfold handleMouseMove. destruct (draggingId st) as [d|]; [|exact Hinv].
    destruct (JS.truthy_string d); [|exact Hinv].
    destruct Hinv as (Hnd & Hz & Hc). split; [|split].
    + unfold oneWindowPerId; simpl. rewrite map_id_preserved; [exact Hnd|].
      intros w. destruct (String.eqb (win_id w) d); reflexivity.
    + intros w; simpl. rewrite in_map_iff. intros [w0 [<- Hin]].
      specialize (Hz w0 Hin). destruct (String.eqb (win_id w0) d); simpl; lia.
    + exact Hc.
  - exact Hinv.
  - destruct Hinv as (_ & _ & Hc).
    split; [constructor | split; [intros w [] | exact Hc]].
  - destruct Hinv as (Hnd & Hz & _).
    split; [exact Hnd | split; [exact Hz | unfold closureBehind; simpl; lia]].
Qed.

Lemma reachable_invariant st : reachable st -> invariant st.
Proof.
  intros [evs ->]. unfold run.
  assert (G : forall st0, invariant st0 -> invariant (fold_left step evs st0)).
  { induction evs as [|ev evs IH]; simpl; intros st0 H0; [exact H0|].
    apply IH, step_invariant, H0. }
  apply G.
  split; [constructor | split; [intros w [] | unfold closureBehind; simpl; lia]].
Qed.

Lemma reachable_step st ev : reachable st -> reachable (step st ev).
Proof.
  intros [evs ->]. exists (evs ++ [ev])%list. unfold run.
  now rewrite fold_left_app.
Qed.

End WindowFacts.

(** C3 does not hold of the listener as written.  The z-index that
    addWindow assigns is one more than the counter its callback closed
    over, while the counter it advances is the one of the current state.
    When the nodes A and B are clicked before the view is rendered again,
    both windows get the z-index 11 and the counter reaches 12; a further
    click on A, whose window is open, leaves the two windows and their ids
    as they are and advances the counter to 13, but gives A the z-index 11
    again: A is not raised above B.  After a render the same click gives A
    the z-index 13. *)
Theorem reopen_before_render_stays_level :
  let st := Community.run [WindowSpec.click 1000 "A" 100 100;
                           WindowSpec.click 1000 "B" 200 200] in
  let reopen := WindowSpec.click 1000 "A" 100 100 in
  Community.reachable st
  /\ Community.hasWindow (Community.windows st) "A" = true
  /\ WindowSpec.levels st = [("A", 11%Z); ("B", 11%Z)]
  /\ Community.nextZIndex st = 12%Z
  /\ WindowSpec.levels (Community.step st reopen) = [("A", 11%Z); ("B", 11%Z)]
  /\ Community.nextZIndex (Community.step st reopen) = 13%Z
  /\ ~ (forall w w2,
          In w (Community.windows (Community.step st reopen)) ->
          In w2 (Community.windows (Community.step st reopen)) ->
          Community.win_id w = "A" -> Community.win_id w2 <> "A" ->
          (Community.zIndex w2 < Community.zIndex w)%Z)
  /\ WindowSpec.levels
       (Community.step (Community.step st Community.Rendered) reopen)
     = [("A", 13%Z); ("B", 11%Z)].
Proof.
  intros st reopen.
  split; [eexists; reflexivity|].
  split; [reflexivity|]. split; [reflexivity|]. split; [reflexivity|].
  split; [reflexivity|]. split; [reflexivity|].
  split; [|reflexivity].
  intros H.
  specialize (H (Community.mkWindow "A" (WindowSpec.authorNode "A")
                                    (JS.ofZ 120) (JS.ofZ 50) 11)
                (Community.mkWindow "B" (WindowSpec.authorNode "B")
                                    (JS.ofZ 230) (JS.ofZ 160) 11)).
  simpl in H.
  assert (Hlt : (11 < 11)%Z).
  { apply H; [left; reflexivity | right; left; reflexivity | reflexivity
             | discriminate]. }
  lia.
Qed.

(** ** Placement of a new window *)

Module PlacementFacts.
Import Community WindowSpec.

Lemma Qle_bool_refl q : Qle_bool q q = true.
Proof. apply Qle_bool_iff, Qle_refl. Qed.

(** [Math.min(x, c)] never exceeds a finite [c], unless [x] is NaN. *)
Lemma Math_min_le x c :
  JS.isNaN x = false -> JS.leb (JS.Math_min x (JS.ofZ c)) (JS.ofZ c) = true.
Proof.
  destruct x as [|[|]|q]; simpl; try discriminate; intros _; try reflexivity.
  - apply Qle_bool_refl.
  - destruct (Qle_bool q (inject_Z c)) eqn:E; simpl.
    + exact E.
    + apply Qle_bool_refl.
Qed.

(** [Math.max(x, c)] is never below a finite [c], unless [x] is NaN. *)
Lemma Math_max_ge x c :
  JS.isNaN x = false -> JS.leb (JS.ofZ c) (JS.Math_max x (JS.ofZ c)) = true.
Proof.
  destruct x as [|[|]|q]; simpl; try discriminate; intros _; try reflexivity.
  - apply Qle_bool_refl.
  - destruct (Qle_bool (inject_Z c) q) eqn:E; simpl.
    + exact E.
    + apply Qle_bool_refl.
Qed.

Lemma isNaN_add_finite x q : JS.isNaN (JS.add x (JS.Finite q)) = JS.isNaN x.
Proof. destruct x as [|[|]|p]; reflexivity. Qed.

Lemma isNaN_sub_finite x z : JS.isNaN (JS.sub x (JS.ofZ z)) = JS.isNaN x.
Proof. destruct x as [|[|]|p]; reflexivity. Qed.

Lemma isNaN_staggeredX ax n : JS.isNaN (staggeredX ax n) = JS.isNaN ax.
Proof. unfold staggeredX, JS.ofZ. now rewrite !isNaN_add_finite. Qed.

Lemma isNaN_staggeredY ay n : JS.isNaN (staggeredY ay n) = JS.isNaN ay.
Proof.
  unfold staggeredY. unfold JS.ofZ at 2. now rewrite isNaN_add_finite, isNaN_sub_finite.
Qed.

End PlacementFacts.

(** C8, as stated, fails: the position of a new window is bounded on the
    right and at the top only.  In a container 1000 wide and 600 high, with
    seven windows open, a click at (500, 590) puts the new window at
    y = 610, below the bottom edge; in a container 250 wide, a click at
    (10, 100) with no window open puts it at x = -50, left of the left
    edge. *)
Lemma new_window_can_spawn_outside :
  (exists w,
      WindowSpec.lastWindow
        (Community.addWindow (Some 1000%Z) (WindowSpec.authorNode "n8")
                             (JS.ofZ 500) (JS.ofZ 590) WindowSpec.sevenOpen)
      = Some w
      /\ Community.win_id w = "n8"
      /\ Community.win_y w = JS.ofZ 610
      /\ WindowSpec.cornerInside 1000 600 w = false)
  /\ (exists w,
         WindowSpec.lastWindow
           (Community.addWindow (Some 250%Z) (WindowSpec.authorNode "A")
                                (JS.ofZ 10) (JS.ofZ 100) Community.initialWM)
         = Some w
         /\ Community.win_x w = JS.ofZ (-50)
         /\ WindowSpec.cornerInside 250 600 w = false).
Proof.
  split; eexists; (split; [vm_compute; reflexivity|]); repeat split;
    vm_compute; reflexivity.
Qed.

(** C8, amended.  Opening an entity that has no window appends one window
    whose position is the anchor moved by (+20, -50) and by a stagger of 10
    per window already open, with x capped at the container width minus 300
    (800 stands in for an unknown or zero width) and y raised to at least
    20; its z-index is one more than the counter the click listener closed
    over.  So, for an anchor that is a number,
    the window never starts right of width - 300 nor above y = 20; its x is
    not bounded from below and its y not from above. *)
Theorem new_window_staggered_and_clamped :
  forall st clientWidth node anchorX anchorY,
    Community.hasWindow (Community.windows st) (id node) = false ->
    let n := List.length (Community.windows st) in
    let limit := (Community.containerWidth clientWidth - 300)%Z in
    let w := {| Community.win_id := id node;
                Community.win_node := node;
                Community.win_x :=
                  JS.Math_min (WindowSpec.staggeredX anchorX n) (JS.ofZ limit);
                Community.win_y :=
                  JS.Math_max (WindowSpec.staggeredY anchorY n) (JS.ofZ 20);
                Community.zIndex := (Community.closureZ st + 1)%Z |} in
    Community.windows (Community.addWindow clientWidth node anchorX anchorY st)
    = (Community.windows st ++ [w])%list
    /\ (JS.isNaN anchorX = false ->
          JS.leb (Community.win_x w) (JS.ofZ limit) = true)
    /\ (JS.isNaN anchorY = false ->
          JS.leb (JS.ofZ 20) (Community.win_y w) = true)
    /\ (JS.leb (WindowSpec.staggeredX anchorX n) (JS.ofZ limit) = true ->
          Community.win_x w = WindowSpec.staggeredX anchorX n)
    /\ (JS.leb (JS.ofZ 20) (WindowSpec.staggeredY anchorY n) = true ->
          Community.win_y w = WindowSpec.staggeredY anchorY n).
Proof.
  intros st cw node ax ay Hnew n limit w. split; [|split; [|split; [|split]]].
  - unfold Community.addWindow; simpl. rewrite Hnew. reflexivity.
  - intros Hx. simpl. apply PlacementFacts.Math_min_le.
    now rewrite PlacementFacts.isNaN_staggeredX.
  - intros Hy. simpl. apply PlacementFacts.Math_max_ge.
    now rewrite PlacementFacts.isNaN_staggeredY.
  - simpl. generalize (WindowSpec.staggeredX ax n). intros v Hle.
    destruct v as [|[|]|q]; simpl in *; try discriminate; try reflexivity.
    now rewrite Hle.
  - simpl. generalize (WindowSpec.staggeredY ay n). intros v Hle.
    destruct v as [|[|]|q]; simpl in *; try discriminate; try reflexivity.
    now rewrite Hle.
Qed.

Lemma new_window_staggered_and_clamped_witness :
  map (fun w => (Community.win_x w, Community.win_y w))
      (Community.windows
         (Community.addWindow (Some 1000%Z) (WindowSpec.authorNode "C")
                              (JS.ofZ 900) (JS.ofZ 40) WindowSpec.twoOpen))
  = [(JS.ofZ 120, JS.ofZ 50); (JS.ofZ 230, JS.ofZ 160); (JS.ofZ 700, JS.ofZ 20)]
  /\ JS.leb (JS.Math_min (WindowSpec.staggeredX (JS.ofZ 900) 2) (JS.ofZ 700))
            (JS.ofZ 700) = true.
Proof.
  split; [reflexivity|].
  apply (new_window_staggered_and_clamped WindowSpec.twoOpen (Some 1000%Z)
           (WindowSpec.authorNode "C") (JS.ofZ 900) (JS.ofZ 40));
    reflexivity.
Defined.

(** ** Domain filter cascade *)

Module CascadeFacts.
Import DomainFilter FilterSpec.

Lemma option_string_eqb_eq a b : DOM.option_string_eqb a b = true <-> a = b.
Proof.
  destruct a as [x|], b as [y|]; simpl; try (split; congruence).
  rewrite String.eqb_eq. split; congruence.
Qed.

Lemma isDomainF_eq value f : isDomainF value f = true <-> f = DomainF value.
Proof.
  destruct f as [v|v d]; simpl; [|split; discriminate].
  rewrite String.eqb_eq. split; congruence.
Qed.

Lemma isSubdomainF_eq v d f : isSubdomainF v d f = true <-> f = SubdomainF v d.
Proof.
  destruct f as [v'|v' d']; simpl; [split; discriminate|].
  rewrite andb_true_iff, String.eqb_eq, option_string_eqb_eq. split.
  - intros [-> ->]. reflexivity.
  - intros [= -> ->]. auto.
Qed.

Section Removal.
Context {A : Type}.
Implicit Types (p : A -> bool) (l : list A).

Lemma removeFound_cons p a l :
  removeFound p (a :: l) = if p a then l else a :: removeFound p l.
Proof.
  unfold removeFound; simpl. destruct (p a); [reflexivity|].
  destruct (findIndex p l); reflexivity.
Qed.

Lemma findIndex_splice p l i :
  findIndex p l = Some i -> splice1 i l = removeFound p l.
Proof. unfold removeFound. now intros ->. Qed.

Lemma findIndex_none p l :
  findIndex p l = None -> forall a, In a l -> p a = false.
Proof.
  induction l as [|b l IH]; simpl; [tauto|].
  destruct (p b) eqn:E; [discriminate|].
  destruct (findIndex p l); [discriminate|].
  intros _ a [<-|Hin]; auto.
Qed.

Lemma findIndex_exists p l :
  existsb p l = true -> exists i, findIndex p l = Some i.
Proof.
  induction l as [|b l IH]; simpl; [discriminate|].
  destruct (p b); simpl; [eauto|].
  intros H. destruct (IH H) as [i ->]. simpl. eauto.
Qed.

Lemma findIndex_found p l i :
  findIndex p l = Some i -> existsb p l = true.
Proof.
  revert i. induction l as [|b l IH]; simpl; [discriminate|].
  destruct (p b); [reflexivity|]. simpl. intros i.
  destruct (findIndex p l) as [j|]; [|discriminate].
  intros _. now apply (IH j).
Qed.

Lemma splice1_incl i : forall l a, In a (splice1 i l) -> In a l.
Proof.
  induction i as [|i IH]; intros [|b l] a; simpl; auto.
  intros [<-|H]; auto.
Qed.

Lemma splice1_NoDup i : forall l, NoDup l -> NoDup (splice1 i l).
Proof.
  induction i as [|i IH]; intros [|b l] Hnd; simpl; auto;
    inversion Hnd as [|? ? Hnot Hnd']; subst; auto.
  constructor; auto. intros Hin. apply Hnot. eapply splice1_incl; eauto.
Qed.

(** In a list without repetition, removing the first element that
    satisfies a predicate met by one value only removes all of them. *)
Lemma removeFound_filter p (a : A) l :
  (forall x, p x = true -> x = a) -> NoDup l ->
  removeFound p l = filter (fun x => negb (p x)) l.
Proof.
  intros Hp. induction l as [|b l IH]; intros Hnd; [reflexivity|].
  inversion Hnd as [|? ? Hnot Hnd']; subst.
  rewrite removeFound_cons. simpl. destruct (p b) eqn:E; simpl.
  - symmetry. apply forallb_filter_id. apply forallb_forall. intros x Hx.
    destruct (p x) eqn:Ex; [|reflexivity].
    apply Hp in E, Ex. subst. contradiction.
  - f_equal. now apply IH.
Qed.

Lemma filter_filter (p q : A -> bool) l :
  filter p (filter q l) = filter (fun x => q x && p x) l.
Proof.
  induction l as [|a l IH]; simpl; [reflexivity|].
  destruct (q a); simpl; [destruct (p a)|]; now rewrite ?IH.
Qed.
End Removal.

(** The loop over the sub-areas removes every filter that names one. *)
Lemma fold_removeFound value sas : forall fs,
  NoDup fs ->
  fold_left (fun fs sa => removeFound (isSubdomainF sa (Some value)) fs) sas fs
  = filter (fun f => negb (existsb (fun sa => isSubdomainF sa (Some value) f) sas)) fs.
Proof.
  induction sas as [|sa sas IH]; intros fs Hnd; simpl.
  - symmetry. apply forallb_filter_id. apply forallb_forall. reflexivity.
  - rewrite (removeFound_filter _ (SubdomainF sa (Some value)));
      [|intros x; apply isSubdomainF_eq | assumption].
    rewrite IH by (now apply NoDup_filter).
    rewrite filter_filter. apply filter_ext. intros f.
    now rewrite negb_orb.
Qed.

Section WithDomains.
Variable domainsList : list Domain.
Hypothesis ids_distinct : NoDup (map domain_id domainsList).

Lemma find_domain dom :
  In dom domainsList ->
  find (fun d => String.eqb (domain_id d) (domain_id dom)) domainsList = Some dom.
Proof.
  revert ids_distinct. induction domainsList as [|d l IH]; simpl; [tauto|].
  intros Hnd Hin. inversion Hnd as [|? ? Hnot Hnd']; subst.
  destruct (String.eqb_spec (domain_id d) (domain_id dom)) as [E|E].
  - destruct Hin as [->|Hin]; [reflexivity|].
    exfalso. apply Hnot. rewrite E. now apply in_map.
  - destruct Hin as [->|Hin]; [congruence | auto].
Qed.

(** Removing a selected domain filter, on a well-formed filter set. *)
Lemma toggle_domain_off fs value domainId :
  wellFormed domainsList fs ->
  isDomainSelected fs value = true ->
  toggleFilter domainsList fs TDomain value domainId = withoutDomain value fs.
Proof.
  intros [Hnd Hsub] Hsel. unfold toggleFilter, withoutDomain.
  destruct (findIndex_exists _ _ Hsel) as [index Hidx]. rewrite Hidx.
  rewrite (findIndex_splice _ _ _ Hidx).
  rewrite (removeFound_filter _ (DomainF value));
    [|intros x; apply isDomainF_eq | assumption].
  destruct (find (fun d => String.eqb (domain_id d) value) domainsList)
    as [domain|] eqn:Hfind.
  - rewrite fold_removeFound by (now apply NoDup_filter).
    rewrite filter_filter. apply filter_ext_in. intros f Hf.
    rewrite negb_orb. f_equal. f_equal.
    destruct f as [v|v d]; simpl.
    + induction (subAreas domain); simpl; auto.
    + destruct (DOM.option_string_eqb d (Some value)) eqn:Ed.
      * apply option_string_eqb_eq in Ed. subst d.
        destruct (Hsub v _ Hf) as (dom & Hdom & [= ->] & Hv).
        rewrite (find_domain dom Hdom) in Hfind. injection Hfind as <-.
        apply existsb_exists. exists v. split; [assumption|].
        now rewrite String.eqb_refl.
      * induction (subAreas domain); simpl; auto.
        now rewrite andb_false_r.
  - apply filter_ext_in. intros f Hf. f_equal.
    destruct f as [v|v d]; simpl; [now rewrite orb_false_r|].
    destruct (DOM.option_string_eqb d (Some value)) eqn:Ed; [|reflexivity].
    apply option_string_eqb_eq in Ed. subst d.
    destruct (Hsub v _ Hf) as (dom & Hdom & [= ->] & Hv).
    now rewrite (find_domain dom Hdom) in Hfind.
Qed.

Lemma wellFormed_sub fs fs' :
  wellFormed domainsList fs -> NoDup fs' -> (forall f, In f fs' -> In f fs) ->
  wellFormed domainsList fs'.
Proof.
  intros [_ Hsub] Hnd Hincl. split; [assumption|].
  intros v d Hin. apply Hsub, Hincl, Hin.
Qed.

Lemma wellFormed_snoc fs f :
  wellFormed domainsList fs -> ~ In f fs ->
  (forall v d, f = SubdomainF v d ->
     exists dom, In dom domainsList /\ d = Some (domain_id dom) /\ In v (subAreas dom)) ->
  wellFormed domainsList (fs ++ [f]).
Proof.
  intros [Hnd Hsub] Hnot Hf. split.
  - now apply WindowFacts.NoDup_snoc.
  - intros v d Hin. apply in_app_iff in Hin. destruct Hin as [Hin | [-> | []]].
    + now apply Hsub.
    + now apply Hf.
Qed.

Lemma reachable_wellFormed fs :
  reachable domainsList fs -> wellFormed domainsList fs.
Proof.
  induction 1 as [| fs d Hr IH Hd | fs d sa Hr IH Hd Hsa | fs index Hr IH].
  - split; [constructor | intros v d []].
  - destruct (isDomainSelected fs (domain_id d)) eqn:Hsel.
    + rewrite (toggle_domain_off fs (domain_id d) None IH Hsel).
      apply (wellFormed_sub fs); [assumption | | ].
      * apply NoDup_filter, IH.
      * intros f Hin. apply filter_In in Hin. tauto.
    + unfold toggleFilter.
      destruct (findIndex (isDomainF (domain_id d)) fs) as [i|] eqn:Hidx.
      * exfalso. unfold isDomainSelected in Hsel.
        rewrite (findIndex_found _ _ _ Hidx) in Hsel. discriminate.
      * apply wellFormed_snoc; [assumption | | discriminate].
        intros Hin. apply (findIndex_none _ _ Hidx) in Hin.
        simpl in Hin. now rewrite String.eqb_refl in Hin.
  - unfold toggleFilter.
    destruct (findIndex (isSubdomainF sa (Some (domain_id d))) fs) as [i|] eqn:Hidx.
    + apply (wellFormed_sub fs); [assumption | | ].
      * apply splice1_NoDup, IH.
      * intros f. apply splice1_incl.
    + apply wellFormed_snoc; [assumption | | ].
      * intros Hin. apply (findIndex_none _ _ Hidx) in Hin.
        simpl in Hin. now rewrite !String.eqb_refl in Hin.
      * intros v d' [= <- <-]. eauto.
  - apply (wellFormed_sub fs); [assumption | | ].
    + apply splice1_NoDup, IH.
    + intros f. apply splice1_incl.
Qed.
End WithDomains.

Lemma DOMAINS_ids_distinct : NoDup (map domain_id DOMAINS).
Proof.
  simpl. repeat constructor; simpl; intuition discriminate.
Qed.

Lemma fiveFilters_reachable : reachable DOMAINS fiveFilters.
Proof.
  pose (MAN := nth 0 DOMAINS (mkDomain "" "" "" [])).
  pose (HLT := nth 1 DOMAINS (mkDomain "" "" "" [])).
  apply (reach_subdomain DOMAINS
           [DomainF "MAN"; SubdomainF "Additive Mfg" (Some "MAN"); DomainF "HLT";
            SubdomainF "CAD/CAM" (Some "MAN")] HLT "Telehealth");
    [| simpl; tauto | simpl; tauto].
  apply (reach_subdomain DOMAINS
           [DomainF "MAN"; SubdomainF "Additive Mfg" (Some "MAN"); DomainF "HLT"]
           MAN "CAD/CAM");
    [| simpl; tauto | simpl; tauto].
  apply (reach_domain DOMAINS
           [DomainF "MAN"; SubdomainF "Additive Mfg" (Some "MAN")] HLT);
    [| simpl; tauto].
  apply (reach_subdomain DOMAINS [DomainF "MAN"] MAN "Additive Mfg");
    [| simpl; tauto | simpl; tauto].
  apply (reach_domain DOMAINS [] MAN); [| simpl; tauto].
  apply reach_init.
Qed.

End CascadeFacts.



(** * Further properties of the window manager *)

Module StackingFacts.
Import Community WindowSpec WindowOps.








Lemma counter_after evs : forall st0,
  nextZIndex (fold_left step evs st0)
  = (nextZIndex st0 + Z.of_nat (List.length (filter isFocusEvent evs)))%Z.
Proof.
  induction evs as [|ev evs IH]; intros st0; [simpl; lia|].
  cbn [fold_left filter]. rewrite IH.
  destruct ev as [cw node sx sy | i | cx cy i px py | cx cy | | |];
    cbn [isFocusEvent focusOf List.length]; simpl nextZIndex; try lia.
  unfold handleMouseMove. destruct (draggingId st0) as [d|]; [|lia].
  destruct (JS.truthy_string d); simpl; lia.
Qed.

End StackingFacts.



(** X2. The z-counter starts at 10 and advances by one on every node click
    and every mouse-down on a window, and on nothing else: closing windows,
    moving them or switching the graph mode never lowers or resets it. *)
Theorem z_counter_counts_focus_events :
  forall evs,
    Community.nextZIndex (Community.run evs)
    = (10 + Z.of_nat (List.length (filter WindowOps.isFocusEvent evs)))%Z.
Proof.
  intros evs. unfold Community.run.
  now rewrite StackingFacts.counter_after.
Qed.

Module FocusFacts.
Import Community WindowSpec WindowOps.


Lemma filter_other_ids i ws :
  ~ In i (map win_id ws) ->
  filter (fun w => negb (String.eqb (win_id w) i)) ws = ws.
Proof.
  intros Hnot. apply forallb_filter_id. apply forallb_forall. intros w Hw.
  destruct (String.eqb_spec (win_id w) i) as [E|E]; [|reflexivity].
  exfalso. apply Hnot. rewrite <- E. now apply in_map.
Qed.

Lemma close_one_less i ws :
  NoDup (map win_id ws) -> In i (map win_id ws) ->
  S (List.length (filter (fun w => negb (String.eqb (win_id w) i)) ws))
  = List.length ws.
Proof.
  induction ws as [|w ws IH]; simpl; intros Hnd Hin; [contradiction|].
  inversion Hnd as [|? ? Hnot Hnd']; subst.
  destruct (String.eqb_spec (win_id w) i) as [E|E]; simpl.
  - subst i. now rewrite filter_other_ids.
  - f_equal. apply IH; [assumption|]. destruct Hin; [contradiction | assumption].
Qed.

End FocusFacts.



(** X23. Opening an entity that already has a window leaves the windows
    as they are in number, order, ids, nodes and positions: only the window
    of that entity gets a z-index, one more than the counter the click
    listener closed over, and the counter advances by one.  In every state
    the window manager can reach no two windows share an entity id, before
    the call and after it; the z-index given is at most the new counter,
    and when the listener closed over the current counter it is above the
    z-index of every window that was open. *)
Theorem reopen_keeps_windows_and_ids :
  forall st clientWidth node anchorX anchorY,
    Community.hasWindow (Community.windows st) (id node) = true ->
    let st' := Community.addWindow clientWidth node anchorX anchorY st in
    List.length (Community.windows st') = List.length (Community.windows st)
    /\ Community.windows st'
       = map (WindowOps.raise (id node) (Community.closureZ st + 1))
             (Community.windows st)
    /\ WindowOps.positions st' = WindowOps.positions st
    /\ map Community.win_node (Community.windows st')
       = map Community.win_node (Community.windows st)
    /\ Community.nextZIndex st' = (Community.nextZIndex st + 1)%Z
    /\ (Community.reachable st ->
          WindowSpec.oneWindowPerId st
          /\ WindowSpec.oneWindowPerId st'
          /\ Community.reachable st'
          /\ (Community.closureZ st + 1 <= Community.nextZIndex st')%Z
          /\ (WindowOps.listenerCurrent st = true ->
                forall w, In w (Community.windows st) ->
                  (Community.zIndex w < Community.closureZ st + 1)%Z)).
Proof.
  intros st cw node ax ay Hopen st'.
  assert (Hw : Community.windows st'
               = map (WindowOps.raise (id node) (Community.closureZ st + 1))
                     (Community.windows st)).
  { subst st'. unfold Community.addWindow; simpl. now rewrite Hopen. }
  split; [rewrite Hw; apply length_map|].
  split; [exact Hw|].
  split.
  { unfold WindowOps.positions. rewrite Hw, map_map. apply map_ext.
    intros w. unfold WindowOps.raise.
    destruct (String.eqb (Community.win_id w) (id node)); reflexivity. }
  split.
  { rewrite Hw, map_map. apply map_ext. intros w. unfold WindowOps.raise.
    destruct (String.eqb (Community.win_id w) (id node)); reflexivity. }
  split; [reflexivity|].
  intros Hreach.
  pose proof (WindowFacts.reachable_invariant st Hreach) as (Hnd & Hz & Hc).
  pose proof (WindowFacts.reachable_step st
                (Community.NodeClicked cw node ax ay) Hreach) as Hreach'.
  simpl in Hreach'. fold st' in Hreach'.
  split; [exact Hnd|].
  split; [apply (WindowFacts.reachable_invariant st' Hreach')|].
  split; [exact Hreach'|].
  unfold WindowSpec.closureBehind in Hc.
  split; [subst st'; simpl; lia|].
  intros Hcur w Hin. apply Z.eqb_eq in Hcur. specialize (Hz w Hin). lia.
Qed.

Lemma reopen_keeps_windows_and_ids_witness :
  WindowSpec.levels WindowSpec.twoOpen = [("A", 11%Z); ("B", 12%Z)]
  /\ WindowSpec.levels
       (Community.addWindow (Some 1000%Z) (WindowSpec.authorNode "A")
                            (JS.ofZ 400) (JS.ofZ 400) WindowSpec.twoOpen)
     = [("A", 13%Z); ("B", 12%Z)]
  /\ List.length
       (Community.windows
          (Community.addWindow (Some 1000%Z) (WindowSpec.authorNode "A")
                               (JS.ofZ 400) (JS.ofZ 400) WindowSpec.twoOpen))
     = List.length (Community.windows WindowSpec.twoOpen)
  /\ WindowSpec.oneWindowPerId
       (Community.addWindow (Some 1000%Z) (WindowSpec.authorNode "A")
                            (JS.ofZ 400) (JS.ofZ 400) WindowSpec.twoOpen).
Proof.
  destruct (reopen_keeps_windows_and_ids WindowSpec.twoOpen (Some 1000%Z)
              (WindowSpec.authorNode "A") (JS.ofZ 400) (JS.ofZ 400) eq_refl)
    as (Hlen & _ & _ & _ & _ & Hreach).
  split; [reflexivity|]. split; [reflexivity|]. split; [exact Hlen|].
  apply Hreach. exists WindowSpec.twoOpenEvents. reflexivity.
Defined.

(** X4. Closing an entity removes its window and nothing else: afterwards
    the entity has no window, the other windows are there unchanged and the
    z-counter is the same; closing an entity that has no window changes
    nothing; in a reachable state closing an open entity removes exactly one
    window. *)
Theorem close_removes_only_that_window :
  forall st i,
    let st' := Community.closeWindow i st in
    Community.hasWindow (Community.windows st') i = false
    /\ (forall w, In w (Community.windows st') <->
                  In w (Community.windows st) /\ Community.win_id w <> i)
    /\ Community.nextZIndex st' = Community.nextZIndex st
    /\ (Community.hasWindow (Community.windows st) i = false ->
        Community.windows st' = Community.windows st)
    /\ (Community.reachable st ->
        Community.hasWindow (Community.windows st) i = true ->
        S (List.length (Community.windows st'))
        = List.length (Community.windows st)).
Proof.
  intros st i st'. subst st'. unfold Community.closeWindow; simpl.
  split; [|split; [|split; [|split]]].
  - destruct (Community.hasWindow (filter _ (Community.windows st)) i) eqn:E;
      [|reflexivity].
    apply WindowFacts.hasWindow_In, in_map_iff in E.
    destruct E as [w [Hid Hin]]. apply filter_In in Hin. destruct Hin as [_ Hb].
    rewrite Hid, String.eqb_refl in Hb. discriminate.
  - intros w. rewrite filter_In. split; intros [Hin Hb]; split; try assumption.
    + intros E. rewrite E, String.eqb_refl in Hb. discriminate.
    + now apply negb_true_iff, String.eqb_neq.
  - reflexivity.
  - intros Hno. apply FocusFacts.filter_other_ids. intros Hin.
    apply WindowFacts.hasWindow_In in Hin. congruence.
  - intros Hreach Hopen. apply FocusFacts.close_one_less.
    + apply (WindowFacts.reachable_invariant st Hreach).
    + now apply WindowFacts.hasWindow_In.
Qed.

Lemma close_removes_only_that_window_witness :
  Community.windows (Community.closeWindow "C" WindowSpec.twoOpen)
  = Community.windows WindowSpec.twoOpen
  /\ S (List.length (Community.windows (Community.closeWindow "A" WindowSpec.twoOpen)))
     = List.length (Community.windows WindowSpec.twoOpen).
Proof.
  destruct (close_removes_only_that_window WindowSpec.twoOpen "C")
    as (_ & _ & _ & Hno & _).
  destruct (close_removes_only_that_window WindowSpec.twoOpen "A")
    as (_ & _ & _ & _ & Hone).
  split.
  - apply Hno. reflexivity.
  - apply Hone; [|reflexivity].
    exists WindowSpec.twoOpenEvents. reflexivity.
Defined.

(** X5. Opening an entity that has no window and closing it again gives
    back the list of windows as it was; only the z-counter has advanced by
    one. *)
Theorem open_then_close_restores_windows :
  forall st clientWidth node anchorX anchorY,
    Community.hasWindow (Community.windows st) (id node) = false ->
    let st' := Community.closeWindow (id node)
                 (Community.addWindow clientWidth node anchorX anchorY st) in
    Community.windows st' = Community.windows st
    /\ Community.nextZIndex st' = (Community.nextZIndex st + 1)%Z.
Proof.
  intros st cw node ax ay Hnew st'. subst st'.
  unfold Community.closeWindow, Community.addWindow; simpl.
  rewrite Hnew. split; [|reflexivity].
  rewrite filter_app. simpl. rewrite String.eqb_refl. simpl.
  rewrite app_nil_r. apply FocusFacts.filter_other_ids.
  intros Hin. apply WindowFacts.hasWindow_In in Hin. congruence.
Qed.

Lemma open_then_close_restores_windows_witness :
  Community.windows
    (Community.closeWindow "C"
       (Community.addWindow (Some 1000%Z) (WindowSpec.authorNode "C")
                            (JS.ofZ 10) (JS.ofZ 10) WindowSpec.twoOpen))
  = Community.windows WindowSpec.twoOpen.
Proof.
  apply (open_then_close_restores_windows WindowSpec.twoOpen (Some 1000%Z)
           (WindowSpec.authorNode "C") (JS.ofZ 10) (JS.ofZ 10)).
  reflexivity.
Defined.

Module DragFacts.
Import Community WindowOps.

(** The position a dragged window gets is its old position moved by the
    displacement of the pointer. *)
Lemma drag_offset (p c c' : Q) :
  sameNumber (JS.sub (JS.Finite c') (JS.sub (JS.Finite c) (JS.Finite p)))
             (JS.Finite (p + (c' - c))).
Proof.
  unfold JS.sub, JS.neg, JS.add, JS.ofQ, sameNumber.
  rewrite !Qred_correct. ring.
Qed.

Lemma dragged_windows st cx cy i px py cx' cy' :
  JS.truthy_string i = true ->
  windows (handleMouseMove cx' cy' (handleMouseDown cx cy i px py st))
  = map (fun w => if String.eqb (win_id w) i
                  then withPos (JS.sub cx' (JS.sub cx px))
                               (JS.sub cy' (JS.sub cy py))
                               (withZ (nextZIndex st + 1) w)
                  else w)
        (windows st).
Proof.
  intros Hi. unfold handleMouseMove, handleMouseDown, bringToFront; simpl.
  rewrite Hi. simpl. rewrite map_map. apply map_ext. intros w.
  destruct (String.eqb (win_id w) i) eqn:E; simpl; now rewrite E.
Qed.

End DragFacts.

(** X6. Pressing the mouse on the window of a non-empty entity id at its
    current position and then moving the pointer moves that window by the
    displacement of the pointer and leaves every other window where it is,
    with its z-index. *)
Theorem drag_moves_window_by_pointer_displacement :
  forall st i (cx cy px py cx' cy' : Q) w,
    i <> "" ->
    In w (Community.windows st) ->
    Community.win_id w = i ->
    Community.win_x w = JS.Finite px -> Community.win_y w = JS.Finite py ->
    let st' := Community.handleMouseMove (JS.Finite cx') (JS.Finite cy')
                 (Community.handleMouseDown (JS.Finite cx) (JS.Finite cy) i
                                            (JS.Finite px) (JS.Finite py) st) in
    (exists w', In w' (Community.windows st')
                /\ Community.win_id w' = i
                /\ Community.win_node w' = Community.win_node w
                /\ WindowOps.sameNumber (Community.win_x w')
                                        (JS.Finite (px + (cx' - cx)))
                /\ WindowOps.sameNumber (Community.win_y w')
                                        (JS.Finite (py + (cy' - cy))))
    /\ (forall w0, In w0 (Community.windows st) -> Community.win_id w0 <> i ->
                   In w0 (Community.windows st'))
    /\ map Community.win_id (Community.windows st')
       = map Community.win_id (Community.windows st).
Proof.
  intros st i cx cy px py cx' cy' w Hi Hin Hid Hx Hy st'. subst st'.
  rewrite DragFacts.dragged_windows by (destruct i; [congruence | reflexivity]).
  split; [|split].
  - eexists. split.
    + apply in_map_iff. exists w. split; [reflexivity | exact Hin].
    + rewrite Hid, String.eqb_refl. simpl.
      repeat split; try assumption; apply DragFacts.drag_offset.
  - intros w0 Hin0 Hne. apply in_map_iff. exists w0. split; [|assumption].
    apply String.eqb_neq in Hne. now rewrite Hne.
  - rewrite map_map. apply map_ext. intros w0.
    destruct (String.eqb (Community.win_id w0) i); reflexivity.
Qed.

Lemma drag_moves_window_by_pointer_displacement_witness :
  map (fun w => (Community.win_id w, Community.win_x w, Community.win_y w))
      (Community.windows
         (Community.handleMouseMove (JS.ofZ 170) (JS.ofZ 45)
            (Community.handleMouseDown (JS.ofZ 130) (JS.ofZ 60) "A"
                                       (JS.ofZ 120) (JS.ofZ 50) WindowSpec.twoOpen)))
  = [("A", JS.ofZ 160, JS.ofZ 35); ("B", JS.ofZ 230, JS.ofZ 160)]
  /\ exists w', In w' (Community.windows
                         (Community.handleMouseMove (JS.ofZ 170) (JS.ofZ 45)
                            (Community.handleMouseDown (JS.ofZ 130) (JS.ofZ 60) "A"
                               (JS.ofZ 120) (JS.ofZ 50) WindowSpec.twoOpen)))
                /\ Community.win_id w' = "A"
                /\ WindowOps.sameNumber (Community.win_x w')
                                        (JS.Finite (120 + (170 - 130))).
Proof.
  split; [reflexivity|].
  destruct (drag_moves_window_by_pointer_displacement WindowSpec.twoOpen "A"
              130 60 120 50 170 45
              (Community.mkWindow "A" (WindowSpec.authorNode "A")
                                  (JS.ofZ 120) (JS.ofZ 50) 11))
    as [[w' (Hin & Hid & _ & Hx & _)] _];
    try reflexivity; [discriminate | left; reflexivity |].
  exists w'. auto.
Defined.

(** X7. Pointer moves move a window only while a drag is active on a
    non-empty entity id: after the mouse is released, and for a window whose
    entity id is the empty string (the id the parser gives to node elements
    without id attribute), a pointer move changes no window. *)
Theorem no_drag_without_active_id :
  (forall st cx cy,
      Community.handleMouseMove cx cy (Community.handleMouseUp st)
      = Community.handleMouseUp st)
  /\ (forall cx cy, Community.handleMouseMove cx cy Community.initialWM
                    = Community.initialWM)
  /\ (forall st cx cy px py cx' cy',
         Community.handleMouseMove cx' cy'
           (Community.handleMouseDown cx cy "" px py st)
         = Community.handleMouseDown cx cy "" px py st)
  /\ (forall options el,
         DOM.getAttribute el "id" = None ->
         forall st cx cy px py cx' cy',
           Community.handleMouseMove cx' cy'
             (Community.handleMouseDown cx cy
                (id (Gexf.nodeOfElement options el)) px py st)
           = Community.handleMouseDown cx cy
               (id (Gexf.nodeOfElement options el)) px py st).
Proof.
  split; [|split; [|split]]; try reflexivity.
  intros options el Hnone st cx cy px py cx' cy'.
  assert (E : id (Gexf.nodeOfElement options el) = "")
    by (unfold Gexf.nodeOfElement; simpl; now rewrite Hnone).
  rewrite E. reflexivity.
Qed.

Lemma no_drag_without_active_id_witness :
  Community.handleMouseMove (JS.ofZ 500) (JS.ofZ 500)
    (Community.handleMouseDown (JS.ofZ 1) (JS.ofZ 1)
       (id (Gexf.nodeOfElement Samples.anyOptions (Samples.anonNode "x")))
       (JS.ofZ 0) (JS.ofZ 0) Community.initialWM)
  = Community.handleMouseDown (JS.ofZ 1) (JS.ofZ 1)
      (id (Gexf.nodeOfElement Samples.anyOptions (Samples.anonNode "x")))
      (JS.ofZ 0) (JS.ofZ 0) Community.initialWM.
Proof.
  apply (proj2 (proj2 (proj2 no_drag_without_active_id))). reflexivity.
Defined.

(** * Further properties of the domain filter *)

Module ToggleFacts.
Import DomainFilter FilterSpec FilterTags CascadeFacts.

Lemma findIndex_app_last {A : Type} (p : A -> bool) (l : list A) (a : A) :
  findIndex p l = None -> p a = true ->
  findIndex p (l ++ [a]) = Some (List.length l).
Proof.
  induction l as [|b l IH]; simpl; intros Hnone Ha.
  - now rewrite Ha.
  - destruct (p b); [discriminate|].
    destruct (findIndex p l); [discriminate|].
    now rewrite IH.
Qed.

Lemma splice1_last {A : Type} (l : list A) (a : A) :
  splice1 (List.length l) (l ++ [a]) = l.
Proof. induction l as [|b l IH]; simpl; [reflexivity | now rewrite IH]. Qed.

Lemma existsb_findIndex {A : Type} (p : A -> bool) (l : list A) :
  existsb p l = match findIndex p l with Some _ => true | None => false end.
Proof.
  induction l as [|b l IH]; simpl; [reflexivity|].
  destruct (p b); simpl; [reflexivity|].
  rewrite IH. destruct (findIndex p l); reflexivity.
Qed.

Lemma existsb_snoc {A : Type} (p : A -> bool) (l : list A) (a : A) :
  existsb p (l ++ [a]) = existsb p l || p a.
Proof. rewrite existsb_app. simpl. now rewrite orb_false_r. Qed.

Lemma filterIndexFrom_all {A : Type} (l : list A) (p : nat -> bool) : forall k,
  (forall j, (k <= j)%nat -> p j = true) -> filterIndexFrom k p l = l.
Proof.
  induction l as [|a l IH]; intros k Hp; simpl; [reflexivity|].
  rewrite (Hp k) by lia. f_equal. apply IH. intros j Hj. apply Hp. lia.
Qed.

(** Index-based removal is removal of the element at that index. *)
Lemma filterIndexFrom_splice {A : Type} (l : list A) : forall i index,
  filterIndexFrom i (fun j => negb (Nat.eqb j (i + index))) l = splice1 index l.
Proof.
  induction l as [|a l IH]; intros i index; simpl.
  - destruct index; reflexivity.
  - destruct index as [|index].
    + rewrite Nat.add_0_r, Nat.eqb_refl. simpl.
      apply filterIndexFrom_all. intros j Hj.
      destruct (Nat.eqb_spec j i); [lia | reflexivity].
    + destruct (Nat.eqb_spec i (i + S index)) as [E|E]; [lia|]. simpl. f_equal.
      rewrite <- (IH (S i) index).
      replace (S i + index)%nat with (i + S index)%nat by lia. reflexivity.
Qed.

Lemma removeTag_splice fs index : removeTag index fs = splice1 index fs.
Proof. unfold removeTag. apply (filterIndexFrom_splice fs 0 index). Qed.

Lemma splice1_length {A : Type} (l : list A) : forall index,
  (index < List.length l)%nat -> S (List.length (splice1 index l)) = List.length l.
Proof.
  induction l as [|a l IH]; intros index Hlt; simpl in *; [lia|].
  destruct index; simpl; [reflexivity|]. f_equal. apply IH. lia.
Qed.

Lemma splice1_keeps {A : Type} (l : list A) : forall index a,
  In a l -> nth_error l index <> Some a -> In a (splice1 index l).
Proof.
  induction l as [|b l IH]; intros index a Hin Hnth; simpl in *; [contradiction|].
  destruct index as [|index]; simpl in *.
  - destruct Hin as [->|Hin]; [congruence | assumption].
  - destruct Hin as [->|Hin]; [now left | right; now apply IH].
Qed.

Lemma splice1_out_of_range {A : Type} (l : list A) : forall index,
  (List.length l <= index)%nat -> splice1 index l = l.
Proof.
  induction l as [|a l IH]; intros index Hle; simpl in *;
    [destruct index; reflexivity|].
  destruct index; [lia|]. simpl. f_equal. apply IH. lia.
Qed.

End ToggleFacts.

(** X8. In every filter set the component can hold (domain ids distinct),
    toggling a domain flips whether that domain is selected and leaves the
    selection of every other domain as it is; toggling a sub-area flips
    whether that sub-area is selected and leaves every domain selection as
    it is. *)
Theorem toggle_flips_selection :
  forall domainsList activeFilters,
    NoDup (map domain_id domainsList) ->
    DomainFilter.reachable domainsList activeFilters ->
    (forall value domainId,
        let fs' := DomainFilter.toggleFilter domainsList activeFilters
                     DomainFilter.TDomain value domainId in
        DomainFilter.isDomainSelected fs' value
        = negb (DomainFilter.isDomainSelected activeFilters value)
        /\ forall other, other <> value ->
             DomainFilter.isDomainSelected fs' other
             = DomainFilter.isDomainSelected activeFilters other)
    /\ (forall subArea domainId,
           let fs' := DomainFilter.toggleFilter domainsList activeFilters
                        DomainFilter.TSubdomain subArea (Some domainId) in
           DomainFilter.isSubdomainSelected fs' subArea domainId
           = negb (DomainFilter.isSubdomainSelected activeFilters subArea domainId)
           /\ forall other,
                DomainFilter.isDomainSelected fs' other
                = DomainFilter.isDomainSelected activeFilters other).
Proof.
  intros domainsList fs Hids Hreach.
  pose proof (CascadeFacts.reachable_wellFormed domainsList Hids fs Hreach) as Hwf.
  split.
  - intros value domainId fs'. subst fs'.
    destruct (DomainFilter.isDomainSelected fs value) eqn:Hsel.
    + rewrite (CascadeFacts.toggle_domain_off domainsList Hids fs value domainId Hwf Hsel).
      unfold FilterSpec.withoutDomain, DomainFilter.isDomainSelected. split.
      * simpl. apply not_true_is_false. intros H. apply existsb_exists in H.
        destruct H as [f [Hin Hf]]. apply filter_In in Hin. destruct Hin as [_ Hb].
        rewrite Hf in Hb. discriminate.
      * intros other Hne. apply eq_true_iff_eq. rewrite !existsb_exists.
        split; intros [f [Hin Hf]]; exists f; (split; [|assumption]).
        -- apply filter_In in Hin. tauto.
        -- apply filter_In. split; [assumption|].
           apply CascadeFacts.isDomainF_eq in Hf. subst f. simpl.
           destruct (String.eqb_spec other value); [congruence | reflexivity].
    + unfold DomainFilter.toggleFilter.
      unfold DomainFilter.isDomainSelected in Hsel.
      rewrite ToggleFacts.existsb_findIndex in Hsel.
      destruct (DomainFilter.findIndex (DomainFilter.isDomainF value) fs);
        [discriminate|].
      unfold DomainFilter.isDomainSelected. split.
      * rewrite ToggleFacts.existsb_snoc. simpl. rewrite String.eqb_refl.
        now rewrite orb_true_r.
      * intros other Hne. rewrite ToggleFacts.existsb_snoc. simpl.
        destruct (String.eqb_spec value other); [congruence|].
        now rewrite orb_false_r.
  - intros subArea domainId fs'. subst fs'. unfold DomainFilter.toggleFilter.
    unfold DomainFilter.isSubdomainSelected, DomainFilter.isDomainSelected.
    rewrite (ToggleFacts.existsb_findIndex
               (DomainFilter.isSubdomainF subArea (Some domainId)) fs).
    destruct (DomainFilter.findIndex
                (DomainFilter.isSubdomainF subArea (Some domainId)) fs)
      as [index|] eqn:Hidx.
    + rewrite (CascadeFacts.findIndex_splice _ _ _ Hidx).
      rewrite (CascadeFacts.removeFound_filter _
                 (DomainFilter.SubdomainF subArea (Some domainId)));
        [|intros x; apply CascadeFacts.isSubdomainF_eq | apply Hwf].
      split.
      * simpl. apply not_true_is_false. intros H. apply existsb_exists in H.
        destruct H as [f [Hin Hf]]. apply filter_In in Hin. destruct Hin as [_ Hb].
        rewrite Hf in Hb. discriminate.
      * intros other. apply eq_true_iff_eq. rewrite !existsb_exists.
        split; intros [f [Hin Hf]]; exists f; (split; [|assumption]).
        -- apply filter_In in Hin. tauto.
        -- apply filter_In. split; [assumption|].
           apply CascadeFacts.isDomainF_eq in Hf. subst f. reflexivity.
    + split.
      * rewrite ToggleFacts.existsb_snoc. simpl. rewrite !String.eqb_refl.
        now rewrite orb_true_r.
      * intros other. rewrite ToggleFacts.existsb_snoc. simpl.
        now rewrite orb_false_r.
Qed.

Lemma toggle_flips_selection_witness :
  DomainFilter.isDomainSelected
    (DomainFilter.toggleFilter DomainFilter.DOMAINS FilterSpec.fiveFilters
                               DomainFilter.TDomain "MAN" None) "MAN"
  = false
  /\ DomainFilter.isDomainSelected
       (DomainFilter.toggleFilter DomainFilter.DOMAINS FilterSpec.fiveFilters
                                  DomainFilter.TDomain "MAN" None) "HLT"
     = true.
Proof.
  destruct (toggle_flips_selection DomainFilter.DOMAINS FilterSpec.fiveFilters
              CascadeFacts.DOMAINS_ids_distinct CascadeFacts.fiveFilters_reachable)
    as [Hdom _].
  destruct (Hdom "MAN" None) as [Hflip Hother].
  split.
  - rewrite Hflip. reflexivity.
  - rewrite (Hother "HLT"); [reflexivity | discriminate].
Defined.

(** X9. Toggling a sub-area that is not selected and toggling it again
    gives back the filter list as it was. *)
Theorem subdomain_toggle_twice_is_identity :
  forall domainsList activeFilters subArea domainId,
    DomainFilter.isSubdomainSelected activeFilters subArea domainId = false ->
    DomainFilter.toggleFilter domainsList
      (DomainFilter.toggleFilter domainsList activeFilters
                                 DomainFilter.TSubdomain subArea (Some domainId))
      DomainFilter.TSubdomain subArea (Some domainId)
    = activeFilters.
Proof.
  intros domainsList fs subArea domainId Hsel.
  unfold DomainFilter.isSubdomainSelected in Hsel.
  rewrite ToggleFacts.existsb_findIndex in Hsel.
  unfold DomainFilter.toggleFilter.
  destruct (DomainFilter.findIndex
              (DomainFilter.isSubdomainF subArea (Some domainId)) fs) eqn:Hidx;
    [discriminate|].
  rewrite (ToggleFacts.findIndex_app_last _ _ _ Hidx)
    by (simpl; now rewrite !String.eqb_refl).
  apply ToggleFacts.splice1_last.
Qed.

Lemma subdomain_toggle_twice_is_identity_witness :
  DomainFilter.toggleFilter DomainFilter.DOMAINS
    (DomainFilter.toggleFilter DomainFilter.DOMAINS FilterSpec.fiveFilters
                               DomainFilter.TSubdomain "Safety" (Some "HFE"))
    DomainFilter.TSubdomain "Safety" (Some "HFE")
  = FilterSpec.fiveFilters.
Proof.
  apply subdomain_toggle_twice_is_identity. reflexivity.
Defined.

(** X10. The tag button of the Community header removes the entry at its
    index and nothing else: for an index inside the list the list gets one
    shorter and every other entry stays, so removing the tag of a domain
    leaves the sub-area filters of that domain active; an index outside the
    list changes nothing. *)
Theorem tag_removal_does_not_cascade :
  forall activeFilters index,
    ((index < List.length activeFilters)%nat ->
       S (List.length (FilterTags.removeTag index activeFilters))
       = List.length activeFilters)
    /\ (forall f, In f activeFilters -> nth_error activeFilters index <> Some f ->
                  In f (FilterTags.removeTag index activeFilters))
    /\ (forall value f,
          nth_error activeFilters index = Some (DomainFilter.DomainF value) ->
          In f activeFilters -> FilterSpec.isChildOf value f = true ->
          In f (FilterTags.removeTag index activeFilters))
    /\ ((List.length activeFilters <= index)%nat ->
          FilterTags.removeTag index activeFilters = activeFilters).
Proof.
  intros fs index. rewrite ToggleFacts.removeTag_splice.
  split; [|split; [|split]].
  - apply ToggleFacts.splice1_length.
  - intros f. apply ToggleFacts.splice1_keeps.
  - intros value f Hnth Hin Hchild. apply ToggleFacts.splice1_keeps; [assumption|].
    rewrite Hnth. intros [= <-]. discriminate.
  - apply ToggleFacts.splice1_out_of_range.
Qed.

Lemma tag_removal_does_not_cascade_witness :
  FilterTags.removeTag 0 FilterSpec.fiveFilters
  = [ DomainFilter.SubdomainF "Additive Mfg" (Some "MAN"); DomainFilter.DomainF "HLT";
      DomainFilter.SubdomainF "CAD/CAM" (Some "MAN");
      DomainFilter.SubdomainF "Telehealth" (Some "HLT") ]
  /\ In (DomainFilter.SubdomainF "CAD/CAM" (Some "MAN"))
        (FilterTags.removeTag 0 FilterSpec.fiveFilters).
Proof.
  split; [reflexivity|].
  apply (proj1 (proj2 (proj2 (tag_removal_does_not_cascade FilterSpec.fiveFilters 0)))
           "MAN"); [reflexivity | simpl; tauto | reflexivity].
Defined.

(** * Further properties of the data filter *)

Module DataFilterFacts.
Import DomainFilter Community Resolution.

Lemma filter_idem {A : Type} (p : A -> bool) (l : list A) :
  filter p (filter p l) = filter p l.
Proof.
  induction l as [|a l IH]; simpl; [reflexivity|].
  destruct (p a) eqn:E; simpl; [rewrite E; f_equal|]; assumption.
Qed.

Lemma setHas_incl ids ids' s :
  (forall k, In k ids -> In k ids') ->
  setHas ids s = true -> setHas ids' s = true.
Proof.
  intros Hincl H. apply ResolutionFacts.setHas_In.
  apply Hincl. now apply ResolutionFacts.setHas_In.
Qed.

Lemma keepNode_more fs f papersList node :
  keepNode fs papersList node = true ->
  keepNode (fs ++ [f]) papersList node = true.
Proof.
  unfold keepNode. destruct (negb (NodeType_eqb (nodeType node) paper)); [reflexivity|].
  rewrite existsb_app. intros ->. reflexivity.
Qed.

(** Every node of the parser's table is the node of some node element. *)
Lemma parsed_node_origin options nodeList n :
  In n (JsMap.values (Gexf.buildNodeMap options nodeList)) ->
  exists el, In el nodeList /\ n = Gexf.nodeOfElement options el.
Proof.
  intros Hin. unfold JsMap.values in Hin. apply in_map_iff in Hin.
  destruct Hin as [[k v] [Heq Hin]]. simpl in Heq. subst v.
  destruct (GexfFacts.buildNodeMap_inv options nodeList) as [Hk Hnd].
  apply JsMapFacts.in_get in Hin; [|assumption].
  rewrite GexfFacts.buildNodeMap_get in Hin.
  destruct (find (Gexf.hasId options k) (rev nodeList)) as [el|] eqn:Hf;
    [|discriminate].
  injection Hin as <-. exists el. split; [|reflexivity].
  apply find_some in Hf. apply in_rev. tauto.
Qed.

Lemma nodeOfElement_author options el :
  nodeType (Gexf.nodeOfElement options el) = author.
Proof.
  unfold Gexf.nodeOfElement; simpl.
  destruct (Gexf.coauthorship options), (Gexf.citation options); try reflexivity.
  match goal with |- (if ?c then _ else _) = _ => destruct c end; reflexivity.
Qed.

End DataFilterFacts.

(** X11. The domain/subdomain filter is idempotent: filtering the filtered
    network again with the same mode, filters and papers changes nothing. *)
Theorem filteredData_idempotent :
  forall mode activeFilters papersList baseData,
    Community.filteredData mode activeFilters papersList
      (Community.filteredData mode activeFilters papersList baseData)
    = Community.filteredData mode activeFilters papersList baseData.
Proof.
  intros mode fs papersList base. unfold Community.filteredData.
  destruct ((0 <? List.length fs)%nat && Community.isCitation mode);
    [|reflexivity].
  simpl. rewrite !DataFilterFacts.filter_idem. reflexivity.
Qed.

(** X12. Filters combine as a union and only ever remove paper nodes: the
    network is returned as it is when no filter is active or the mode is
    co-authorship; otherwise every author node stays, every paper node whose
    group is the value of an active domain filter stays, and adding one more
    filter to a non-empty filter list removes no node and no link that was
    kept before. *)
Theorem filters_combine_as_union :
  forall activeFilters papersList baseData,
    (forall mode, activeFilters = [] \/ mode = Community.SOCIAL ->
       Community.filteredData mode activeFilters papersList baseData = baseData)
    /\ (forall n, In n (nodes baseData) -> nodeType n = author ->
          In n (nodes (Community.filteredData Community.CITATION activeFilters
                                              papersList baseData)))
    /\ (forall n, In n (nodes baseData) ->
          In (DomainFilter.DomainF (group n)) activeFilters ->
          In n (nodes (Community.filteredData Community.CITATION activeFilters
                                              papersList baseData)))
    /\ (forall f, activeFilters <> [] ->
          (forall n,
             In n (nodes (Community.filteredData Community.CITATION activeFilters
                                                 papersList baseData)) ->
             In n (nodes (Community.filteredData Community.CITATION
                            (activeFilters ++ [f]) papersList baseData)))
          /\ (forall l,
                In l (links (Community.filteredData Community.CITATION activeFilters
                                                    papersList baseData)) ->
                In l (links (Community.filteredData Community.CITATION
                               (activeFilters ++ [f]) papersList baseData)))).
Proof.
  intros fs papersList base.
  assert (Hkeep : forall n, In n (nodes base) ->
            Community.keepNode fs papersList n = true ->
            In n (nodes (Community.filteredData Community.CITATION fs papersList base))).
  { intros n Hin Hk. unfold Community.filteredData.
    destruct ((0 <? List.length fs)%nat && Community.isCitation Community.CITATION);
      [|assumption].
    simpl. apply filter_In. auto. }
  split; [|split; [|split]].
  - intros mode [-> | ->]; [reflexivity|].
    unfold Community.filteredData. simpl. now rewrite andb_false_r.
  - intros n Hin Hty. apply Hkeep; [assumption|].
    unfold Community.keepNode. now rewrite Hty.
  - intros n Hin Hf. apply Hkeep; [assumption|].
    unfold Community.keepNode.
    destruct (negb (NodeType_eqb (nodeType n) paper)); [reflexivity|].
    apply existsb_exists. exists (DomainFilter.DomainF (group n)).
    split; [assumption | apply String.eqb_refl].
  - intros f Hne.
    assert (Hne' : (fs ++ [f])%list <> []) by (destruct fs; discriminate).
    rewrite !FilterFacts.filteredData_active by assumption. simpl.
    assert (Hn : forall n,
              In n (filter (Community.keepNode fs papersList) (nodes base)) ->
              In n (filter (Community.keepNode (fs ++ [f]) papersList) (nodes base))).
    { intros n Hin. apply filter_In in Hin. destruct Hin as [Hin Hk].
      apply filter_In. split; [assumption|].
      now apply DataFilterFacts.keepNode_more. }
    split; [exact Hn|].
    intros l Hin. apply filter_In in Hin. destruct Hin as [Hin Hb].
    apply filter_In. split; [assumption|].
    unfold Resolution.bothEndsPresent in *.
    apply andb_prop in Hb. destruct Hb as [Hs Ht].
    assert (Hincl : forall k,
              In k (map id (filter (Community.keepNode fs papersList) (nodes base))) ->
              In k (map id (filter (Community.keepNode (fs ++ [f]) papersList)
                                   (nodes base)))).
    { intros k Hk. apply in_map_iff in Hk. destruct Hk as [n [<- Hk]].
      apply in_map. now apply Hn. }
    rewrite (DataFilterFacts.setHas_incl _ _ _ Hincl Hs).
    rewrite (DataFilterFacts.setHas_incl _ _ _ Hincl Ht). reflexivity.
Qed.

Lemma filters_combine_as_union_witness :
  map id (nodes (Community.filteredData Community.CITATION
                   [DomainFilter.DomainF "MAN";
                    DomainFilter.SubdomainF "Additive Mfg" (Some "MAN")]
                   [] Samples.paperNet))
  = ["p-1"; "p-3"]
  /\ In (Samples.paperNode "p-2" "HLT")
        (nodes (Community.filteredData Community.CITATION
                  ([DomainFilter.DomainF "HLT"] ++ [DomainFilter.DomainF "MAN"])
                  [] Samples.paperNet)).
Proof.
  split; [reflexivity|].
  destruct (filters_combine_as_union [DomainFilter.DomainF "HLT"] [] Samples.paperNet)
    as (_ & _ & _ & Hmore).
  apply (Hmore (DomainFilter.DomainF "MAN")); [discriminate|].
  simpl. tauto.
Defined.

(** X13. The filter never changes a network that the GEXF parser returned:
    every parsed node is an author node and every parsed link joins nodes of
    the network, so whatever the mode, the filters and the papers, the
    filtered network is the parsed one. *)
Theorem filter_keeps_parsed_network :
  forall doc options nd,
    Gexf.parseDocument doc options = Gexf.Return nd ->
    (forall n, In n (nodes nd) -> nodeType n = author)
    /\ forall mode activeFilters papersList,
         Community.filteredData mode activeFilters papersList nd = nd.
Proof.
  intros doc options nd Hparse.
  assert (Hauthor : forall n, In n (nodes nd) -> nodeType n = author).
  { intros n Hin.
    apply ResolutionFacts.parseDocument_return in Hparse.
    destruct Hparse as (graph & rest & _ & _ & ->).
    apply DataFilterFacts.parsed_node_origin in Hin. destruct Hin as [el [_ ->]].
    apply DataFilterFacts.nodeOfElement_author. }
  split; [exact Hauthor|].
  intros mode fs papersList. unfold Community.filteredData.
  destruct ((0 <? List.length fs)%nat && Community.isCitation mode); [|reflexivity].
  assert (Hnodes : filter (Community.keepNode fs papersList) (nodes nd) = nodes nd).
  { apply forallb_filter_id. apply forallb_forall. intros n Hin.
    unfold Community.keepNode. now rewrite (Hauthor n Hin). }
  rewrite Hnodes.
  assert (Hlinks : filter (fun link =>
                      Community.setHas (map id (nodes nd))
                                       (Community.linkEndId (source link))
                      && Community.setHas (map id (nodes nd))
                                          (Community.linkEndId (target link)))
                     (links nd) = links nd).
  { apply forallb_filter_id. apply forallb_forall. intros l Hin.
    apply ResolutionFacts.parseDocument_return in Hparse.
    destruct Hparse as (graph & rest & _ & _ & ->).
    apply ResolutionFacts.graphOf_links_in_nodes in Hin.
    destruct Hin as (s & t & -> & -> & Hs & Ht). simpl.
    apply andb_true_intro. split; apply ResolutionFacts.setHas_In; now apply in_map. }
  rewrite Hlinks. destruct nd; reflexivity.
Qed.

Lemma filter_keeps_parsed_network_witness :
  Community.filteredData Community.CITATION [DomainFilter.DomainF "MAN"] []
                         Samples.duplicateResult
  = Samples.duplicateResult.
Proof.
  apply (proj2 (filter_keeps_parsed_network Samples.duplicateDoc Samples.anyOptions
                  Samples.duplicateResult eq_refl)).
Defined.

(** * Further properties of the parser *)

Module ParserFacts.
Import DOM Gexf OrderSpec.

Lemma hash_prefix s : JS.startsWith ("#" ++ s) "#" = true.
Proof. destruct s; reflexivity. Qed.

Lemma resolveColor_hash colorEl : JS.startsWith (resolveColor colorEl) "#" = true.
Proof.
  unfold resolveColor. destruct colorEl as [el|]; [|reflexivity].
  destruct (attr el "hex") as [[|c r]|].
  - destruct (getRgbFromColorEl el) as [[[r g] b]|];
      [apply hash_prefix | reflexivity].
  - destruct (JS.startsWith (String c r) "#") eqn:E;
      [exact E | apply hash_prefix].
  - destruct (getRgbFromColorEl el) as [[[r g] b]|];
      [apply hash_prefix | reflexivity].
Qed.

Lemma filter_notIn_snoc ks k l :
  filter (notIn (ks ++ [k])) l
  = filter (notIn ks) (filter (fun k' => negb (String.eqb k' k)) l).
Proof.
  rewrite CascadeFacts.filter_filter. apply filter_ext. intros a.
  unfold notIn. rewrite existsb_app. simpl. rewrite orb_false_r, negb_orb.
  apply andb_comm.
Qed.

Lemma filter_notIn_member ks k l :
  existsb (String.eqb k) ks = true ->
  filter (notIn ks) (filter (fun k' => negb (String.eqb k' k)) l)
  = filter (notIn ks) l.
Proof.
  intros Hk. rewrite CascadeFacts.filter_filter. apply filter_ext. intros a.
  unfold notIn. destruct (String.eqb_spec a k) as [->|Hne]; simpl; [|reflexivity].
  now rewrite Hk.
Qed.

Lemma has_existsb (m : JsMap.t GraphNode) k :
  JsMap.has k m = existsb (String.eqb k) (JsMap.keys m).
Proof.
  apply eq_true_iff_eq. rewrite JsMapFacts.has_in_keys.
  change (existsb (String.eqb k) (JsMap.keys m))
    with (Community.setHas (JsMap.keys m) k).
  now rewrite ResolutionFacts.setHas_In.
Qed.

(** The keys of the table after the node loop: the keys it had, then the
    new ids in the order of their first occurrence. *)
Lemma fold_addNode_keys options l : forall m,
  JsMap.keys (fold_left (addNode options) l m)
  = (JsMap.keys m
     ++ filter (notIn (JsMap.keys m))
               (firstOccurrences (map (fun el => id (nodeOfElement options el)) l)))%list.
Proof.
  induction l as [|el l IH]; intros m.
  - simpl. now rewrite app_nil_r.
  - cbn [fold_left map firstOccurrences filter]. rewrite IH.
    set (k := id (nodeOfElement options el)).
    assert (Hk : JsMap.keys (addNode options m el)
                 = if existsb (String.eqb k) (JsMap.keys m)
                   then JsMap.keys m else (JsMap.keys m ++ [k])%list).
    { unfold addNode. fold k. rewrite JsMapFacts.keys_set, has_existsb. reflexivity. }
    rewrite Hk.
    assert (Hn : notIn (JsMap.keys m) k
                 = negb (existsb (String.eqb k) (JsMap.keys m))) by reflexivity.
    rewrite Hn.
    destruct (existsb (String.eqb k) (JsMap.keys m)) eqn:E; cbn [negb].
    + now rewrite filter_notIn_member.
    + rewrite <- app_assoc. cbn [app]. now rewrite filter_notIn_snoc.
Qed.

End ParserFacts.

(** X14. Every parsed node has a colour string that starts with "#",
    whatever the colour element holds: a hex value gets the "#" when it
    lacks it, the rgb reconstruction and the default start with it. *)
Theorem parsed_color_starts_with_hash :
  forall options n,
    JS.startsWith (color (Gexf.nodeOfElement options n)) "#" = true.
Proof.
  intros options n. apply ParserFacts.resolveColor_hash.
Qed.

(** X15. No link of a parsed network ends at the id "": an edge whose
    source or target attribute is empty is dropped even when a node with the
    id "" exists (the node that the elements without id attribute collapse
    onto), so that node never has a link. *)
Theorem parsed_links_have_nonempty_ends :
  forall doc options nd,
    Gexf.parseDocument doc options = Gexf.Return nd ->
    forall l, In l (links nd) ->
      Community.linkEndId (source l) <> ""
      /\ Community.linkEndId (target l) <> "".
Proof.
  intros doc options nd Hparse l Hin.
  apply ResolutionFacts.parseDocument_return in Hparse.
  destruct Hparse as (graph & rest & _ & _ & ->).
  unfold Gexf.graphOf in Hin; simpl in Hin.
  apply GexfFacts.buildLinks_in in Hin. destruct Hin as [e [_ He]].
  apply GexfFacts.linkOfElement_some in He.
  destruct He as (s & t & sn & tn & _ & _ & Hs & Ht & Gs & Gt & ->). simpl.
  destruct (GexfFacts.buildNodeMap_inv options
              (DOM.getElementsByTagNameNS graph Gexf.GEXF_NS "node")) as [Hk _].
  apply JsMapFacts.get_in in Gs, Gt. apply Hk in Gs, Gt.
  rewrite Gs, Gt. auto.
Qed.

Lemma parsed_links_have_nonempty_ends_witness :
  Gexf.parseDocument
    (Samples.gexfDoc [Samples.anonNode "x"; Samples.labelledNode "A" "A"]
                     [Samples.edgeElem "" "A" "1"; Samples.edgeElem "A" "" "1";
                      Samples.edgeElem "A" "A" "3"])
    Samples.anyOptions
  = Gexf.Return
      {| nodes := [Samples.plainNode "" "x"; Samples.plainNode "A" "A"];
         links := [ {| source := EndNode (Samples.plainNode "A" "A");
                       target := EndNode (Samples.plainNode "A" "A");
                       value := JS.ofZ 3 |} ] |}
  /\ Community.linkEndId (EndNode (Samples.plainNode "A" "A")) <> "".
Proof.
  split; [reflexivity|].
  apply (parsed_links_have_nonempty_ends
           (Samples.gexfDoc [Samples.anonNode "x"; Samples.labelledNode "A" "A"]
                            [Samples.edgeElem "" "A" "1"; Samples.edgeElem "A" "" "1";
                             Samples.edgeElem "A" "A" "3"])
           Samples.anyOptions _ eq_refl
           {| source := EndNode (Samples.plainNode "A" "A");
              target := EndNode (Samples.plainNode "A" "A");
              value := JS.ofZ 3 |}).
  left. reflexivity.
Defined.

(** X16. The nodes of a parsed network come in the order in which their
    ids first occur among the node elements (a later definition of an id
    replaces the content, not the position), so there are at most as many
    nodes as node elements. *)
Theorem parsed_nodes_in_first_occurrence_order :
  forall doc options nd,
    Gexf.parseDocument doc options = Gexf.Return nd ->
    exists graph,
      In graph (DOM.docGetElementsByTagNameNS doc Gexf.GEXF_NS "graph")
      /\ let nodeList := DOM.getElementsByTagNameNS graph Gexf.GEXF_NS "node" in
         map id (nodes nd)
         = OrderSpec.firstOccurrences
             (map (fun el => id (Gexf.nodeOfElement options el)) nodeList)
         /\ (List.length (nodes nd) <= List.length nodeList)%nat.
Proof.
  intros doc options nd Hparse.
  apply ResolutionFacts.parseDocument_return in Hparse.
  destruct Hparse as (graph & rest & _ & Hg & ->).
  exists graph. split; [rewrite Hg; now left|]. cbv zeta.
  set (nodeList := DOM.getElementsByTagNameNS graph Gexf.GEXF_NS "node").
  assert (E : map id (nodes (Gexf.graphOf graph options))
              = OrderSpec.firstOccurrences
                  (map (fun el => id (Gexf.nodeOfElement options el)) nodeList)).
  { unfold Gexf.graphOf; simpl. fold nodeList.
    rewrite GexfFacts.nodes_ids. unfold Gexf.buildNodeMap.
    rewrite ParserFacts.fold_addNode_keys. simpl.
    apply forallb_filter_id. apply forallb_forall. reflexivity. }
  split; [exact E|].
  rewrite <- (length_map id), E.
  rewrite <- (length_map (fun el => id (Gexf.nodeOfElement options el)) nodeList).
  generalize (map (fun el => id (Gexf.nodeOfElement options el)) nodeList).
  intros ks. induction ks as [|k ks IH]; simpl; [lia|].
  pose proof (filter_length_le (fun k' => negb (String.eqb k' k))
                               (OrderSpec.firstOccurrences ks)).
  lia.
Qed.

Lemma parsed_nodes_in_first_occurrence_order_witness :
  map id (nodes Samples.duplicateResult) = ["A"; "B"; ""]
  /\ exists graph,
       In graph (DOM.docGetElementsByTagNameNS Samples.duplicateDoc Gexf.GEXF_NS "graph")
       /\ let nodeList := DOM.getElementsByTagNameNS graph Gexf.GEXF_NS "node" in
          map id (nodes Samples.duplicateResult)
          = OrderSpec.firstOccurrences
              (map (fun el => id (Gexf.nodeOfElement Samples.anyOptions el)) nodeList)
          /\ (List.length (nodes Samples.duplicateResult) <= List.length nodeList)%nat.
Proof.
  split; [reflexivity|].
  apply (parsed_nodes_in_first_occurrence_order Samples.duplicateDoc
           Samples.anyOptions Samples.duplicateResult eq_refl).
Defined.

(** * Further properties of highlighting and rendering *)

Module HoverFacts.
Import Community.

Lemma no_term hs : searchTerm hs = "" -> JS.truthy_string (JS.toLowerCase (searchTerm hs)) = false.
Proof. intros ->. reflexivity. Qed.

Lemma open_highlight hs d :
  searchTerm hs = "" -> In (id d) (map win_id (openWindows hs)) ->
  isHighlight hs d = true.
Proof.
  intros Ht Hin. unfold isHighlight. rewrite (no_term hs Ht).
  apply ResolutionFacts.setHas_In in Hin. rewrite Hin.
  destruct (hoverLink hs) as [l|];
    [destruct (_ || _)|]; destruct (hoverNode hs) as [h|];
    try destruct (String.eqb (id d) (id h)); reflexivity.
Qed.

Lemma opacity_of_highlight hs d :
  searchTerm hs = "" -> isHighlight hs d = true -> nodeOpacity hs d = JS.ofZ 1.
Proof.
  intros Ht Hh. unfold nodeOpacity. rewrite (no_term hs Ht), Hh.
  destruct (hoverNode hs), (hoverLink hs); reflexivity.
Qed.

End HoverFacts.

(** X17. Without a search term: with nothing hovered every node is drawn
    at opacity 1; the hovered node, the two end nodes of a hovered link and
    every node with an open window are drawn at opacity 1, and a node with
    an open window has the black stroke; while a node is hovered, a node
    that is not the hovered one and has no open window is dimmed to 0.3. *)
Theorem hover_dims_only_unrelated_nodes :
  forall hs d,
    Community.searchTerm hs = "" ->
    (Community.hoverNode hs = None -> Community.hoverLink hs = None ->
       Community.nodeOpacity hs d = JS.ofZ 1)
    /\ (In (id d) (map Community.win_id (Community.openWindows hs)) ->
          Community.nodeOpacity hs d = JS.ofZ 1
          /\ Community.nodeStroke hs d = "#000")
    /\ (forall h, Community.hoverNode hs = Some h -> id d = id h ->
          Community.nodeOpacity hs d = JS.ofZ 1)
    /\ (forall l s, Community.hoverLink hs = Some l ->
          source l = EndNode s \/ target l = EndNode s -> id d = id s ->
          Community.nodeOpacity hs d = JS.ofZ 1)
    /\ (forall h, Community.hoverNode hs = Some h -> Community.hoverLink hs = None ->
          id d <> id h ->
          ~ In (id d) (map Community.win_id (Community.openWindows hs)) ->
          Community.nodeOpacity hs d = JS.Finite (3 # 10)
          /\ Community.nodeStroke hs d = "#fff").
Proof.
  intros hs d Ht. pose proof (HoverFacts.no_term hs Ht) as Hno.
  split; [|split; [|split; [|split]]].
  - intros Hn Hl. unfold Community.nodeOpacity. now rewrite Hno, Hn, Hl.
  - intros Hin. pose proof (HoverFacts.open_highlight hs d Ht Hin) as Hh. split.
    + now apply HoverFacts.opacity_of_highlight.
    + unfold Community.nodeStroke. now rewrite Hh.
  - intros h Hn Hid. apply HoverFacts.opacity_of_highlight; [assumption|].
    unfold Community.isHighlight. rewrite Hno, Hn, Hid, String.eqb_refl.
    destruct (Community.hoverLink hs) as [l|]; [destruct (_ || _)|]; reflexivity.
  - intros l s Hl Hend Hid. apply HoverFacts.opacity_of_highlight; [assumption|].
    unfold Community.isHighlight. rewrite Hno, Hl, Hid.
    destruct Hend as [-> | ->]; simpl; rewrite String.eqb_refl;
      [reflexivity | now rewrite orb_true_r].
  - intros h Hn Hl Hne Hnot.
    assert (Hh : Community.isHighlight hs d = false).
    { unfold Community.isHighlight. rewrite Hno, Hl, Hn.
      apply String.eqb_neq in Hne. rewrite Hne.
      destruct (Community.setHas (map Community.win_id (Community.openWindows hs))
                                 (id d)) eqn:E; [|reflexivity].
      apply ResolutionFacts.setHas_In in E. contradiction. }
    split.
    + unfold Community.nodeOpacity. now rewrite Hno, Hh, Hn.
    + unfold Community.nodeStroke. now rewrite Hh.
Qed.

Lemma hover_dims_only_unrelated_nodes_witness :
  Community.nodeOpacity
    (Community.mkHighlight "" (Some SearchSpec.otherPaper) None
       [Community.mkWindow "p-7" SearchSpec.titledPaper (JS.ofZ 0) (JS.ofZ 20) 11])
    SearchSpec.titledPaper
  = JS.ofZ 1
  /\ Community.nodeOpacity
       (Community.mkHighlight "" (Some SearchSpec.otherPaper) None [])
       SearchSpec.titledPaper
     = JS.Finite (3 # 10).
Proof.
  split.
  - apply (hover_dims_only_unrelated_nodes
             (Community.mkHighlight "" (Some SearchSpec.otherPaper) None
                [Community.mkWindow "p-7" SearchSpec.titledPaper
                                    (JS.ofZ 0) (JS.ofZ 20) 11])
             SearchSpec.titledPaper eq_refl).
    left. reflexivity.
  - apply (proj2 (proj2 (proj2 (proj2
             (hover_dims_only_unrelated_nodes
                (Community.mkHighlight "" (Some SearchSpec.otherPaper) None [])
                SearchSpec.titledPaper eq_refl))))
             SearchSpec.otherPaper eq_refl eq_refl).
    + discriminate.
    + intros [].
Defined.

Module RadiusFacts.









End RadiusFacts.



(** * Loading a network *)

Module LoaderFacts.
Import Loader.

Lemma parsed_ids_distinct doc options nd :
  Gexf.parseDocument doc options = Gexf.Return nd -> NoDup (map id (nodes nd)).
Proof.
  intros H. apply ResolutionFacts.parseDocument_return in H.
  destruct H as (graph & rest & _ & _ & ->). unfold Gexf.graphOf; simpl.
  rewrite GexfFacts.nodes_ids. apply GexfFacts.buildNodeMap_inv.
Qed.

End LoaderFacts.

(** X19. Loading one network catches what reading and parsing the GEXF
    body throws, and nothing else.  When the GEXF text parses, the network
    is the parsed one and is marked as GEXF, whatever the JSON response is
    (its node ids are distinct and its links join its own nodes).  A GEXF
    response that is not ok, whose body cannot be read, or whose text makes
    parseGexf throw is handled as a missing GEXF file: the JSON response
    decides; an ok JSON response with a decodable body gives the network,
    marked as JSON, and one that is not ok leaves the network as it was.  A
    rejected fetch, and a JSON body that cannot be decoded, end the step
    with an exception and the network as it was. *)
Theorem gexf_load_falls_back_to_json :
  forall (parseFromString : string -> DOM.Document) options jsonRes st,
    let load gexfRes :=
      Loader.loadNetwork parseFromString options gexfRes jsonRes st in
    (forall xml nd,
        Gexf.parseGexf parseFromString xml options = Gexf.Return nd ->
        load (Loader.Ok (Some xml))
        = Loader.Completed {| Loader.network := nd; Loader.fromGexf := true |} true
        /\ NoDup (map id (nodes nd))
        /\ forall l, In l (links nd) ->
             In (Community.linkEndId (source l)) (map id (nodes nd))
             /\ In (Community.linkEndId (target l)) (map id (nodes nd)))
    /\ (forall xml message,
          Gexf.parseGexf parseFromString xml options = Gexf.Throw message ->
          load (Loader.Ok (Some xml)) = load Loader.NotOk)
    /\ load (Loader.Ok None) = load Loader.NotOk
    /\ load Loader.NotOk
       = match jsonRes with
         | Loader.Ok (Some nd) =>
             Loader.Completed {| Loader.network := nd; Loader.fromGexf := false |}
                              true
         | Loader.NotOk => Loader.Completed st false
         | Loader.Ok None | Loader.Rejected => Loader.Failed st
         end
    /\ load Loader.Rejected = Loader.Failed st
    /\ (forall gexfRes,
          (forall st', load gexfRes <> Loader.Completed st' true) ->
          Loader.stateOf (load gexfRes) = st).
Proof.
  intros parse options jsonRes st load. subst load. cbv beta.
  unfold Loader.loadNetwork, Loader.tryGexf.
  split; [|split; [|split; [|split; [|split]]]].
  - intros xml nd Hparse. rewrite Hparse. simpl. split; [reflexivity|].
    unfold Gexf.parseGexf in Hparse. split.
    + exact (LoaderFacts.parsed_ids_distinct _ _ _ Hparse).
    + intros l Hin.
      apply ResolutionFacts.parseDocument_return in Hparse.
      destruct Hparse as (graph & rest & _ & _ & ->).
      apply ResolutionFacts.graphOf_links_in_nodes in Hin.
      destruct Hin as (s & t & -> & -> & Hs & Ht). simpl.
      split; now apply in_map.
  - intros xml message Hparse. rewrite Hparse. reflexivity.
  - reflexivity.
  - simpl. destruct jsonRes as [| |[nd|]]; reflexivity.
  - reflexivity.
  - intros gexfRes Hnot.
    destruct gexfRes as [| |[xml|]]; simpl in *;
      try (destruct jsonRes as [| |[nd|]]; simpl in *; try reflexivity;
           exfalso; eapply Hnot; reflexivity).
    destruct (Gexf.parseGexf parse xml options) as [nd|m]; simpl in *.
    + exfalso. eapply Hnot. reflexivity.
    + destruct jsonRes as [| |[nd|]]; simpl in *; try reflexivity.
      exfalso. eapply Hnot. reflexivity.
Qed.

Lemma gexf_load_falls_back_to_json_witness :
  Loader.loadNetwork (DOMParser.parseFromString ParserSamples.sampleXml)
                     Samples.anyOptions
                     (Loader.Ok (Some ParserSamples.danglingText))
                     (Loader.Ok None)
                     (Loader.mkLoaded LayoutSamples.emptyData false)
  = Loader.Completed
      (Loader.mkLoaded
         {| nodes := [Samples.plainNode "A" "A"; Samples.plainNode "B" "B";
                      Samples.plainNode "C" "C"];
            links := [ {| source := EndNode (Samples.plainNode "A" "A");
                          target := EndNode (Samples.plainNode "B" "B");
                          value := JS.ofZ 2 |} ] |} true) true
  /\ Loader.loadNetwork (DOMParser.parseFromString ParserSamples.sampleXml)
                        Samples.anyOptions
                        (Loader.Ok (Some ParserSamples.truncatedText))
                        (Loader.Ok (Some Samples.paperNet))
                        (Loader.mkLoaded LayoutSamples.emptyData false)
     = Loader.Completed (Loader.mkLoaded Samples.paperNet false) true
  /\ Loader.loadNetwork (DOMParser.parseFromString ParserSamples.sampleXml)
                        Samples.anyOptions
                        (Loader.Ok (Some ParserSamples.truncatedText))
                        (Loader.Ok None)
                        (Loader.mkLoaded LayoutSamples.emptyData false)
     = Loader.Failed (Loader.mkLoaded LayoutSamples.emptyData false).
Proof.
  split; [|split].
  - apply (proj1 (gexf_load_falls_back_to_json
                    (DOMParser.parseFromString ParserSamples.sampleXml)
                    Samples.anyOptions (Loader.Ok None)
                    (Loader.mkLoaded LayoutSamples.emptyData false))
             ParserSamples.danglingText).
    vm_compute. reflexivity.
  - destruct (gexf_load_falls_back_to_json
                (DOMParser.parseFromString ParserSamples.sampleXml)
                Samples.anyOptions (Loader.Ok (Some Samples.paperNet))
                (Loader.mkLoaded LayoutSamples.emptyData false))
      as (_ & Hthrow & _ & Hjson & _).
    cbv beta in Hthrow, Hjson.
    rewrite (Hthrow ParserSamples.truncatedText
               "GEXF parse error: XML Parsing Error: no element found<gexf xmlns='http://gexf.net/1.3'><graph>"
               eq_refl).
    exact Hjson.
  - destruct (gexf_load_falls_back_to_json
                (DOMParser.parseFromString ParserSamples.sampleXml)
                Samples.anyOptions (Loader.Ok None)
                (Loader.mkLoaded LayoutSamples.emptyData false))
      as (_ & Hthrow & _ & Hjson & _).
    cbv beta in Hthrow, Hjson.
    rewrite (Hthrow ParserSamples.truncatedText
               "GEXF parse error: XML Parsing Error: no element found<gexf xmlns='http://gexf.net/1.3'><graph>"
               eq_refl).
    exact Hjson.
Defined.

(** * One line of the classification CSV *)

Module CsvFacts.
Import Csv.

Lemma readQuoted_rest_bound n : forall s field,
  (String.length s <= n)%nat ->
  (String.length (snd (readQuoted s field)) <= String.length s)%nat.
Proof.
  induction n as [|n IH]; intros s field Hn.
  - destruct s; simpl in *; lia.
  - destruct s as [|c r]; simpl in *; [lia|].
    destruct (Ascii.eqb c quote).
    + destruct r as [|c' r']; simpl in *; [lia|].
      destruct (Ascii.eqb c' quote); simpl; [|lia].
      specialize (IH r' (field ++ String quote "")%string). lia.
    + specialize (IH r (field ++ String c "")%string). lia.
Qed.

Lemma readQuoted_rest s field :
  (String.length (snd (readQuoted s field)) <= String.length s)%nat.
Proof. now apply (readQuoted_rest_bound (String.length s)). Qed.

Lemma breakComma_rest s : forall before after,
  breakComma s = Some (before, after) ->
  (String.length after < String.length s)%nat.
Proof.
  induction s as [|c r IH]; simpl; intros before after; [discriminate|].
  destruct (Ascii.eqb c comma).
  - intros [= <- <-]. lia.
  - destruct (breakComma r) as [[b a]|]; [|discriminate].
    intros [= <- <-]. specialize (IH b a eq_refl). lia.
Qed.

(** Enough fuel is enough: the loop ends before the fuel does. *)
Lemma parseFrom_fuel fuel : forall fuel' s,
  (String.length s < fuel)%nat -> (String.length s < fuel')%nat ->
  parseFrom fuel s = parseFrom fuel' s.
Proof.
  induction fuel as [|f IH]; intros fuel' s Hf Hf'; [lia|].
  destruct fuel' as [|f']; [lia|]. destruct s as [|c r]; [reflexivity|].
  simpl in Hf, Hf'. simpl.
  destruct (Ascii.eqb c quote).
  - pose proof (readQuoted_rest r "") as Hr.
    destruct (readQuoted r "") as [field rest]. simpl in Hr.
    f_equal. apply IH; lia.
  - destruct (match (if Ascii.eqb c comma then Some (EmptyString, r)
                     else match breakComma r with
                          | Some (before, after) => Some (String c before, after)
                          | None => None
                          end)
              with Some p => Some p | None => None end) as [[b a]|] eqn:E.
    + assert (Hb : breakComma (String c r) = Some (b, a)).
      { simpl. destruct (Ascii.eqb c comma); [exact E|].
        destruct (breakComma r) as [[b' a']|]; [exact E | discriminate]. }
      apply breakComma_rest in Hb as Hlen. simpl in Hb, Hlen.
      rewrite Hb. f_equal. apply IH; lia.
    + assert (Hb : breakComma (String c r) = None).
      { simpl. destruct (Ascii.eqb c comma); [discriminate|].
        destruct (breakComma r) as [[b' a']|]; [discriminate | reflexivity]. }
      simpl in Hb. now rewrite Hb.
Qed.

Lemma parseFrom_empty fuel : parseFrom fuel "" = [].
Proof. destruct fuel; reflexivity. Qed.

Lemma parseFrom_line fuel s :
  (String.length s < fuel)%nat -> parseFrom fuel s = parseCsvLine s.
Proof. intros H. apply parseFrom_fuel; [assumption | lia]. Qed.

Lemma append_assoc (a b c : string) : ((a ++ b) ++ c = a ++ (b ++ c))%string.
Proof. induction a as [|x a IH]; simpl; [reflexivity | now rewrite IH]. Qed.

Lemma append_nil_r (a : string) : (a ++ "")%string = a.
Proof. induction a as [|x a IH]; simpl; [reflexivity | now rewrite IH]. Qed.

(** Reading up to a closing quote that is not doubled. *)
Lemma readQuoted_plain f : forall acc rest,
  noQuote f = true ->
  match rest with String c _ => Ascii.eqb c quote = false | EmptyString => True end ->
  readQuoted (f ++ String quote rest) acc = ((acc ++ f)%string, rest).
Proof.
  induction f as [|c f IH]; intros acc rest Hn Hrest; simpl.
  - rewrite append_nil_r.
    change (Ascii.eqb quote quote) with true. simpl.
    destruct rest as [|c' r']; [reflexivity|]. now rewrite Hrest.
  - simpl in Hn. apply andb_prop in Hn. destruct Hn as [Hc Hn].
    apply negb_true_iff in Hc. rewrite Hc.
    rewrite IH by assumption. now rewrite append_assoc.
Qed.

(** Reading across a doubled quote. *)
Lemma readQuoted_doubled f : forall acc rest,
  noQuote f = true ->
  readQuoted (f ++ String quote (String quote rest)) acc
  = readQuoted rest (acc ++ f ++ String quote "").
Proof.
  induction f as [|c f IH]; intros acc rest Hn; simpl.
  - change (Ascii.eqb quote quote) with true. reflexivity.
  - simpl in Hn. apply andb_prop in Hn. destruct Hn as [Hc Hn].
    apply negb_true_iff in Hc. rewrite Hc.
    rewrite IH by assumption. now rewrite append_assoc.
Qed.

Lemma breakComma_append f rest :
  breakComma f = None -> breakComma (f ++ String comma rest) = Some (f, rest).
Proof.
  induction f as [|c f IH]; simpl; intros Hf.
  - change (Ascii.eqb comma comma) with true. reflexivity.
  - destruct (Ascii.eqb c comma); [discriminate|].
    destruct (breakComma f) as [[b a]|]; [discriminate|].
    now rewrite IH.
Qed.

Lemma join_cons sep s l :
  l <> [] -> JS.join sep (s :: l) = (s ++ sep ++ JS.join sep l)%string.
Proof. destruct l; [congruence | reflexivity]. Qed.

Lemma length_append (a b : string) :
  String.length (a ++ b) = (String.length a + String.length b)%nat.
Proof. induction a as [|x a IH]; simpl; [reflexivity | now rewrite IH]. Qed.

(** An unquoted cell followed by a comma. *)
Lemma parse_plain_then f rest :
  plainField f ->
  parseCsvLine (f ++ String comma rest) = f :: parseCsvLine rest.
Proof.
  intros (Hcomma & Htrim & Hq). unfold parseCsvLine at 1.
  pose proof (breakComma_append f rest Hcomma) as Hb.
  remember (f ++ String comma rest)%string as s eqn:Es.
  assert (Hlen : (String.length rest < String.length s)%nat)
    by (subst s; rewrite length_append; simpl; lia).
  destruct s as [|c r]; [simpl in Hlen; lia|].
  assert (Hc : Ascii.eqb c quote = false).
  { destruct f as [|c0 f0]; simpl in Es; injection Es as -> _; [reflexivity | exact Hq]. }
  cbn [parseFrom]. rewrite Hc, Hb, Htrim. f_equal.
  apply parseFrom_line. simpl in Hlen. simpl. lia.
Qed.

End CsvFacts.

(** X20. A line of unquoted cells splits back into its cells: when no cell
    holds a comma, has white space around it or starts with a quote, and the
    last cell is not empty, parsing the cells joined by commas returns the
    cells. *)
Theorem csv_plain_cells_round_trip :
  forall cells last,
    Forall Csv.plainField cells -> Csv.plainField last -> last <> "" ->
    Csv.parseCsvLine (JS.join "," (cells ++ [last])) = (cells ++ [last])%list.
Proof.
  intros cells last Hcells Hlast Hne.
  induction Hcells as [|f cells Hf Hcells IH]; simpl app.
  - simpl JS.join. destruct Hlast as (Hcomma & Htrim & Hq).
    destruct last as [|c r]; [congruence|].
    unfold Csv.parseCsvLine. cbn [Csv.parseFrom]. now rewrite Hq, Hcomma, Htrim.
  - rewrite CsvFacts.join_cons by (destruct cells; discriminate).
    change ("," ++ JS.join "," (cells ++ [last]))%string
      with (String Csv.comma (JS.join "," (cells ++ [last]))).
    rewrite CsvFacts.parse_plain_then by assumption. now rewrite IH.
Qed.

Lemma csv_plain_cells_round_trip_witness :
  Csv.parseCsvLine "title,year,,primary_domain" = ["title"; "year"; ""; "primary_domain"].
Proof.
  apply (csv_plain_cells_round_trip ["title"; "year"; ""] "primary_domain").
  - repeat constructor.
  - repeat constructor.
  - discriminate.
Defined.

(** X21. A quoted cell is read up to its closing quote, a doubled quote
    inside standing for one quote; but when a comma follows the closing
    quote, the parser returns the cell and then an empty cell before it goes
    on with the rest of the line, so the cells after a quoted one are shifted
    by one. *)
Theorem csv_quoted_cell_adds_empty_cell :
  (forall f, Csv.noQuote f = true ->
     Csv.parseCsvLine (Csv.quoted f) = [f])
  /\ (forall f g, Csv.noQuote f = true -> Csv.noQuote g = true ->
        Csv.parseCsvLine
          (String Csv.quote
             (f ++ String Csv.quote (String Csv.quote (g ++ String Csv.quote ""))))
        = [(f ++ String Csv.quote "" ++ g)%string])
  /\ (forall f rest, Csv.noQuote f = true ->
        Csv.parseCsvLine (Csv.quoted f ++ String Csv.comma rest)
        = f :: "" :: Csv.parseCsvLine rest).
Proof.
  split; [|split].
  - intros f Hf. unfold Csv.parseCsvLine, Csv.quoted. cbn [Csv.parseFrom].
    change (Ascii.eqb Csv.quote Csv.quote) with true. cbv iota.
    rewrite (CsvFacts.readQuoted_plain f "" "" Hf I). cbn [append].
    rewrite CsvFacts.parseFrom_empty. reflexivity.
  - intros f g Hf Hg. unfold Csv.parseCsvLine. cbn [Csv.parseFrom].
    change (Ascii.eqb Csv.quote Csv.quote) with true. cbv iota.
    rewrite (CsvFacts.readQuoted_doubled f "" _ Hf).
    rewrite (CsvFacts.readQuoted_plain g _ "" Hg I). cbn [append].
    rewrite CsvFacts.parseFrom_empty, CsvFacts.append_assoc. reflexivity.
  - intros f rest Hf. unfold Csv.parseCsvLine at 1, Csv.quoted.
    cbn [append]. rewrite CsvFacts.append_assoc. cbn [append Csv.parseFrom].
    change (Ascii.eqb Csv.quote Csv.quote) with true. cbv iota.
    rewrite (CsvFacts.readQuoted_plain f "" (String Csv.comma rest) Hf eq_refl).
    simpl append. f_equal.
    rewrite CsvFacts.parseFrom_line
      by (cbn [String.length]; rewrite CsvFacts.length_append;
          cbn [String.length]; lia).
    change (String Csv.comma rest) with ("" ++ String Csv.comma rest)%string.
    apply CsvFacts.parse_plain_then. repeat split.
Qed.

Lemma csv_quoted_cell_adds_empty_cell_witness :
  Csv.parseCsvLine (Csv.quoted "Lean, agile and green" ++ String Csv.comma "2005,MAN")
  = ["Lean, agile and green"; ""; "2005"; "MAN"].
Proof.
  rewrite (proj2 (proj2 csv_quoted_cell_adds_empty_cell)
             "Lean, agile and green" "2005,MAN" eq_refl).
  reflexivity.
Defined.

(** * Filtering and the layout mode *)

(** X22. Filtering never turns an imported layout into a simulated one
    unless it removes every node: when all nodes of the network carry
    numeric coordinates, the filtered network selects the imported layout as
    long as it has a node, and starts a force simulation when it has none. *)
Theorem filter_keeps_imported_layout :
  forall width mode activeFilters papersList baseData,
    Community.hasGexfLayout baseData = true ->
    let data := Community.filteredData mode activeFilters papersList baseData in
    (nodes data <> [] ->
       Community.hasGexfLayout data = true
       /\ Community.startSimulation width mode data = None)
    /\ (nodes data = [] ->
          exists sim, Community.startSimulation width mode data = Some sim).
Proof.
  intros width mode fs papersList base Hbase data.
  assert (Hsub : forall n, In n (nodes data) -> In n (nodes base)).
  { subst data. unfold Community.filteredData.
    destruct ((0 <? List.length fs)%nat && Community.isCitation mode); [|auto].
    simpl. intros n Hin. apply filter_In in Hin. tauto. }
  unfold Community.hasGexfLayout in Hbase. apply andb_prop in Hbase.
  destruct Hbase as [_ Hall]. rewrite forallb_forall in Hall.
  split.
  - intros Hne.
    assert (H : Community.hasGexfLayout data = true).
    { unfold Community.hasGexfLayout. apply andb_true_intro. split.
      - destruct (nodes data); [congruence | reflexivity].
      - apply forallb_forall. intros n Hin. apply Hall, Hsub, Hin. }
    split; [exact H|]. unfold Community.startSimulation. now rewrite H.
  - intros Hempty. unfold Community.startSimulation, Community.hasGexfLayout.
    rewrite Hempty. simpl. eexists. reflexivity.
Qed.

Lemma filter_keeps_imported_layout_witness :
  Community.hasGexfLayout
    (Community.filteredData Community.CITATION [DomainFilter.DomainF "MAN"] []
                            Samples.duplicateResult)
  = true.
Proof.
  apply (proj1 (filter_keeps_imported_layout 800 Community.CITATION
                  [DomainFilter.DomainF "MAN"] [] Samples.duplicateResult eq_refl)).
  discriminate.
Defined.
